(** * gdbp_base: training and evaluation of a DBP-based optical equalizer

    A shallow embedding of [src/gdbp/gdbp_base.py].

    Conventions of the embedding.
    - Python [int] is [Z]; floor division and modulo are [Z.div] and
      [Z.modulo], which round the way Python's [//] and [%] do.
    - JAX floating-point scalars are real numbers [R] wherever a statement
      does not depend on rounding.  Where it does (the normalization and the
      cosine-similarity loss), the functions are also given on binary32
      values, the type JAX computes them in ([F32], over the IEEE 754 model
      of the standard library), with rounding, overflow, signed zeros and
      NaN.
    - The code is run by JAX both on plain numbers and on tracers that carry
      a derivative.  The arithmetic the source uses is therefore an interface
      ([Scalar]) with two instances: [R] (evaluation) and [dual]
      (forward-mode differentiation with JAX's differentiation rules).
    - Python exceptions are the error side of [result].
    - A [dict] with key paths is a [gmap (list string) V].
    - The commplax layer stack, the optax optimizer, [jax.value_and_grad]
      and the metric are external collaborators: they are arguments of the
      functions that use them, as they are in the source. *)

From Stdlib Require Import Reals Lra Psatz ZArith.
From Stdlib Require Import Floats.SpecFloat.
From stdpp Require Import gmap strings list fin_maps pretty.

(** ** Python exceptions *)

Inductive PyError : Type :=
  | AssertionError (msg : string)
  | ValueError (msg : string)
  | ZeroDivisionError.

Inductive result (A : Type) : Type :=
  | Ok (a : A)
  | Raise (e : PyError).
Arguments Ok {A} a.
Arguments Raise {A} e.

#[export] Instance result_ret : MRet result := fun A a => Ok a.

#[export] Instance result_bind : MBind result := fun A B k m =>
  match m with
  | Ok a => k a
  | Raise e => Raise e
  end.

(** ** Python sequences *)

Module PySeq.

(** [len(l)] *)
Definition len {A : Type} (l : list A) : Z := Z.of_nat (length l).

(** How a slice bound [i] is brought into [0 .. n]: a negative bound
    counts from the end. *)
Definition clamp (n i : Z) : Z :=
  if (i <? 0)%Z then Z.max 0 (i + n) else Z.min i n.

(** [l[a:b]] *)
Definition slice {A : Type} (l : list A) (a b : Z) : list A :=
  let n := len l in
  let a' := clamp n a in
  let b' := clamp n b in
  take (Z.to_nat (b' - a')) (drop (Z.to_nat a') l).

(** [l[:b]] *)
Definition slice_to {A : Type} (l : list A) (b : Z) : list A :=
  slice l 0 b.

End PySeq.

(** ** Scalars: the arithmetic JAX runs the source on *)

Class Scalar (T : Type) : Type := {
  s_const : R -> T;
  s_add : T -> T -> T;
  s_mul : T -> T -> T;
  s_div : T -> T -> T;
  s_neg : T -> T;
  s_sqrt : T -> T;
  s_max : T -> T -> T;
  (** [jax.lax.stop_gradient] *)
  s_stop_gradient : T -> T;
}.

(** Plain evaluation. *)
#[export] Instance scalar_R : Scalar R := {|
  s_const := fun r => r;
  s_add := Rplus;
  s_mul := Rmult;
  s_div := Rdiv;
  s_neg := Ropp;
  s_sqrt := sqrt;
  s_max := Rmax;
  s_stop_gradient := fun r => r;
|}.

(** Forward-mode differentiation: a value with the derivative of that value
    along the direction being differentiated. *)
Record dual : Type := Dual { primal : R; tangent : R }.

Definition dual_max (a b : dual) : dual :=
  if Rlt_dec (primal b) (primal a) then a
  else if Rlt_dec (primal a) (primal b) then b
  else Dual (primal a) ((tangent a + tangent b) / 2).

#[export] Instance scalar_dual : Scalar dual := {|
  s_const := fun r => Dual r 0;
  s_add := fun a b => Dual (primal a + primal b) (tangent a + tangent b);
  s_mul := fun a b =>
    Dual (primal a * primal b)
         (tangent a * primal b + primal a * tangent b);
  s_div := fun a b =>
    Dual (primal a / primal b)
         (tangent a / primal b
          - primal a * tangent b / (primal b * primal b));
  s_neg := fun a => Dual (- primal a) (- tangent a);
  s_sqrt := fun a =>
    Dual (sqrt (primal a)) (tangent a / (2 * sqrt (primal a)));
  s_max := dual_max;
  s_stop_gradient := fun a => Dual (primal a) 0;
|}.

(** ** Arrays *)

(** A complex number. *)
Record complex (T : Type) : Type := Cplx { re : T; im : T }.
Arguments Cplx {T} re im.
Arguments re {T} c.
Arguments im {T} c.

Section Arrays.
Context {T : Type} `{Scalar T}.

(** [jnp.sum] of a vector *)
Definition s_sum (v : list T) : T := foldr s_add (s_const 0) v.

(** [jnp.mean] of a vector *)
Definition s_mean (v : list T) : T :=
  s_div (s_sum v) (s_const (INR (length v))).

(** [jnp.abs] of a complex number *)
Definition c_abs (c : complex T) : T :=
  s_sqrt (s_add (s_mul (re c) (re c)) (s_mul (im c) (im c))).

(** [jnp.abs] of a 2-D complex array *)
Definition array_abs (a : list (list (complex T))) : list (list T) :=
  map (map c_abs) a.

(** [jax.lax.stop_gradient] of a 2-D array *)
Definition array_stop_gradient (a : list (list T)) : list (list T) :=
  map (map s_stop_gradient) a.

(** [l2_normalize(x, axis=1)] on one row of [x]: the row's sum of squares
    (kept as a dimension by [keepdims]), floored by [epsilon], its square
    root, and the row divided by it. *)
Definition l2_normalize_row (epsilon : R) (x : list T) : list T :=
  let square_sum := s_sum (map (fun a => s_mul a a) x) in
  let x_inv_norm := s_sqrt (s_max square_sum (s_const epsilon)) in
  map (fun a => s_div a x_inv_norm) x.

(** [l2_normalize(x, axis=1)] with the default [epsilon=1e-12]; the source
    calls it with no other axis. *)
Definition l2_normalize (x : list (list T)) : list (list T) :=
  map (l2_normalize_row (/ 10 ^ 12)) x.

(** [negative_cosine_similarity(p, z)] *)
Definition negative_cosine_similarity (p z : list (list T)) : T :=
  let p := l2_normalize p in
  let z := l2_normalize z in
  s_neg (s_mean (zip_with (fun r s => s_sum (zip_with s_mul r s)) p z)).

End Arrays.

(** Two 2-D arrays of the same shape. *)
Definition same_shape {A : Type} (p z : list (list A)) : Prop :=
  Forall2 (fun r s => length r = length s) p z.

(** The quantities [l2_normalize] and [negative_cosine_similarity] compute on
    rows of real numbers: the sum of squares of a row, the default
    [epsilon], the divisor of a row, and the sum of products of two rows. *)
Definition sumsq (r : list R) : R := s_sum (map (fun a => s_mul a a) r).
Definition eps : R := (/ 10 ^ 12)%R.
Definition row_norm (r : list R) : R := sqrt (Rmax (sumsq r) eps).
Definition dot (r s : list R) : R := s_sum (zip_with s_mul r s).

(** Row [i] of [p] multiplied by the scalar [c]. *)
Definition scale_row (i : nat) (c : R) (p : list (list R)) : list (list R) :=
  alter (map (Rmult c)) i p.

(** A row may be rescaled by [c] when it is all zero, or when its sum of
    squares is at least [epsilon] before and after. *)
Definition rescalable (c : R) (r : list R) : Prop :=
  Forall (fun a => a = 0%R) r \/
  (eps <= sumsq r /\ eps <= sumsq (map (Rmult c) r))%R.

(** A traced value the derivative does not reach. *)
Definition constant (a : dual) : Prop := tangent a = 0%R.

(** ** Random source

    The augmentations draw from numpy's global generator.  Its state is made
    explicit: a tape of uniform draws from [0, 1) and the position of the
    next one. *)

Record RandomState : Type := { tape : nat -> R; pos : nat }.

(** [np.random.rand()] *)
Definition np_random_rand (st : RandomState) : R * RandomState :=
  (tape st (pos st), {| tape := tape st; pos := S (pos st) |}).

(** [np.random.uniform(low, high)] *)
Definition np_random_uniform (low high : R) (st : RandomState)
  : R * RandomState :=
  let '(u, st) := np_random_rand st in
  ((low + (high - low) * u)%R, st).

(** ** Construction of the layer stack *)

(** The value the adaptive MIMO layers take as [train]: the constant [True],
    or [cxopt.piecewise_constant(boundaries, values)]. *)
Inductive MimoTrain : Type :=
  | TrainAlways
  | PiecewiseConstant (boundaries : list Z) (values : list bool).

(** The layers [make_base_module] asks commplax for, with the arguments it
    passes; [InitFn] is the type of the kernel initializers. *)
Inductive LayerSpec (InitFn : Type) : Type :=
  | FDBP (steps dtaps ntaps : Z) (d_init n_init : InitFn)
  | BatchPowerNorm (mode : string)
  | MIMOFOEAf (name : string) (w0 : R) (train : MimoTrain) (preslicer : Z)
  | VmapConv1d (name : string) (taps : Z)
  | MIMOAF (train : MimoTrain).
Arguments FDBP {InitFn} steps dtaps ntaps d_init n_init.
Arguments BatchPowerNorm {InitFn} mode.
Arguments MIMOFOEAf {InitFn} name w0 train preslicer.
Arguments VmapConv1d {InitFn} name taps.
Arguments MIMOAF {InitFn} train.

(** [layer.Serial(...)] *)
Inductive ModuleSpec (InitFn : Type) : Type :=
  | Serial (layers : list (LayerSpec InitFn)).
Arguments Serial {InitFn} layers.

(** [assert c, msg] *)
Definition py_assert (c : Z) (msg : string) : result unit :=
  if (c =? 0)%Z then Raise (AssertionError msg) else Ok tt.

(** [a % b] *)
Definition py_mod (a b : Z) : result Z :=
  if (b =? 0)%Z then Raise ZeroDivisionError else Ok (a mod b)%Z.

Definition _assert_taps (dtaps ntaps rtaps : Z) (sps : Z) : result unit :=
  d ← py_mod dtaps sps;
  _ ← py_assert d
        ("dtaps must be odd number, got " +:+ pretty dtaps +:+ " instead");
  n ← py_mod ntaps sps;
  _ ← py_assert n
        ("ntaps must be odd number, got " +:+ pretty ntaps +:+ " instead");
  r ← py_mod rtaps sps;
  py_assert r
        ("rtaps must be odd number, got " +:+ pretty rtaps +:+ " instead").

Definition make_base_module {InitFn : Type}
    (steps dtaps ntaps rtaps : Z) (init_fn : InitFn * InitFn) (w0 : R)
    (mode : string) : result (ModuleSpec InitFn) :=
  _ ← _assert_taps dtaps ntaps rtaps 2;
  let '(d_init, n_init) := init_fn in
  mimo_train ←
    (if String.eqb mode "train" then Ok TrainAlways
     else if String.eqb mode "test"
          then Ok (PiecewiseConstant [200000%Z] [true; false])
          else Raise (ValueError ("invalid mode " +:+ mode)));
  let base :=
    Serial [ FDBP steps dtaps ntaps d_init n_init;
             BatchPowerNorm mode;
             MIMOFOEAf "FOEAf" w0 mimo_train rtaps;
             VmapConv1d "RConv" rtaps;
             MIMOAF mimo_train ] in
  Ok base.

(** The keyword arguments [model_init] receives as [base_conf]. *)
Record BaseConf (InitFn : Type) : Type := {
  conf_steps : Z;
  conf_dtaps : Z;
  conf_ntaps : Z;
  conf_rtaps : Z;
  conf_init_fn : InitFn * InitFn;
  conf_mode : string;
}.
Arguments conf_steps {InitFn} b.
Arguments conf_dtaps {InitFn} b.
Arguments conf_ntaps {InitFn} b.
Arguments conf_rtaps {InitFn} b.
Arguments conf_init_fn {InitFn} b.
Arguments conf_mode {InitFn} b.

(** ** Batch windowing *)

(** Modelled from the spec: [op.frame_shape] of commplax, which is not part
    of the sources.  The number of windows of length [flen] taken every
    [fstep] samples from a sequence of [n] samples: one more than the number
    of whole steps that fit after the first window, and none when not even
    one window fits. *)
Definition frame_shape (n flen fstep : Z) : result Z :=
  if (fstep =? 0)%Z then Raise ZeroDivisionError
  else Ok (Z.max 0 (1 + (n - flen) / fstep))%Z.

(** Modelled from the spec: [op.frame_gen] of commplax, which is not part of
    the sources.  Window [i] is [x[i * fstep : i * fstep + flen]]. *)
Definition frame_gen {A : Type} (x : list A) (flen fstep : Z)
  : result (list (list A)) :=
  fnum ← frame_shape (PySeq.len x) flen fstep;
  Ok ((fun i => PySeq.slice x (i * fstep) (i * fstep + flen))%Z
        <$> seqZ 0 fnum).

(** The [n] elements of [l] from position [a] on. *)
Definition window {A : Type} (l : list A) (a n : Z) : list A :=
  take (Z.to_nat n) (drop (Z.to_nat a) l).

(** ** The model *)

(** [core.SigTime]: where the valid part of a signal starts, and the offset
    (counted from the end, so not positive) at which it stops. *)
Record SigTime : Type := { start : Z; stop : Z; sps : Z }.

Section Model.
Context {T : Type} `{Scalar T}.
(** Leaves of the parameter tree, adaptive-filter state, constants, target
    symbols, optimizer state, metric values, kernel initializers. *)
Context {Tensor State Const Sym OptState Metric InitFn : Type}.

(** [core.Signal] *)
Record Signal : Type := { val : list (list (complex T)); t : SigTime }.

(** [core.Signal(y)] *)
Definition mkSignal (y : list (list (complex T))) : Signal :=
  {| val := y; t := {| start := 0; stop := 0; sps := 2 |} |}.

(** The variable collections a layer is applied to,
    [{'params': .., 'aux_inputs': .., 'const': .., **state}]. *)
Record Variables : Type := {
  v_params : gmap (list string) Tensor;
  v_aux_inputs : gmap (list string) (list Sym);
  v_const : Const;
  v_state : State;
}.

(** What [init] returns next to the output signal: the collections
    ['params'], ['af_state'], ['aux_inputs'] and ['const']. *)
Record InitVars : Type := {
  iv_params : gmap (list string) Tensor;
  iv_af_state : State;
  iv_aux_inputs : gmap (list string) (list Sym);
  iv_const : Const;
}.

(** [layer.Layer]: the contract of the equalizer module. *)
Record Layer : Type := {
  init : Z -> Signal -> Signal * InitVars;
  apply : Variables -> Signal -> Signal * State;
}.

(** [optax.GradientTransformation] *)
Record GradientTransformation : Type := {
  opt_init : gmap (list string) Tensor -> OptState;
  opt_update : gmap (list string) Tensor -> OptState ->
               gmap (list string) Tensor ->
               gmap (list string) Tensor * OptState;
}.

(** What the code takes from JAX and commplax besides arithmetic:
    [jax.grad] of a scalar function of the parameters, the sum of two
    parameter leaves, and the construction of a layer stack. *)
Class Backend : Type := {
  jax_grad : (gmap (list string) Tensor -> T) ->
             gmap (list string) Tensor -> gmap (list string) Tensor;
  tensor_add : Tensor -> Tensor -> Tensor;
  realize : ModuleSpec InitFn -> Layer;
}.
Context `{Backend}.

(** [gdat.Input] *)
Record Input : Type := {
  y : list (list (complex T));
  x : list Sym;
  w0 : R;
}.

Record Model : Type := {
  module : Layer;
  initvar : gmap (list string) Tensor * State
            * gmap (list string) (list Sym) * Const
            * gmap (list string) Tensor;
  overlaps : Z;
  name : string;
}.

(** Modelled from the spec: [util.dict_split] of commplax, which is not
    part of the sources.  The entries whose key path is listed, and the
    others. *)
Definition dict_split {V : Type} (d : gmap (list string) V)
    (paths : list (list string))
  : gmap (list string) V * gmap (list string) V :=
  (filter (fun kv => kv.1 ∈ paths) d, filter (fun kv => kv.1 ∉ paths) d).

(** Modelled from the spec: [util.dict_merge] of commplax, which is not
    part of the sources.  The entries of both; on a shared key path the
    second dict's entry. *)
Definition dict_merge {V : Type} (a b : gmap (list string) V)
  : gmap (list string) V := b ∪ a.

(** Modelled from the spec: [core.dict_replace] of commplax, which is not
    part of the sources.  [dict_replace col {key: v}] puts [v] at every
    leaf named [key]. *)
Definition dict_replace {V : Type} (col : gmap (list string) V)
    (key : string) (v : V) : gmap (list string) V :=
  map_imap (fun k old =>
              Some (if decide (last k = Some key) then v else old)) col.

(** [optax.apply_updates]: leafwise sum of parameters and updates (optax
    refuses trees of different structure; an optax transformation returns
    updates with the structure of the gradients). *)
Definition apply_updates (params updates : gmap (list string) Tensor)
  : gmap (list string) Tensor :=
  map_zip_with tensor_add params updates.

(** [jax.value_and_grad(f, has_aux=True)] *)
Definition value_and_grad {A : Type}
    (f : gmap (list string) Tensor -> T * A)
    (params : gmap (list string) Tensor)
  : (T * A) * gmap (list string) Tensor :=
  (f params, jax_grad (fun q => fst (f q)) params).

Definition model_init (data : Input) (base_conf : BaseConf InitFn)
    (sparams_flatkeys : list (list string)) (n_symbols : Z) (sps : Z)
    (name : string) : result Model :=
  mod_ ← make_base_module (conf_steps base_conf) (conf_dtaps base_conf)
          (conf_ntaps base_conf) (conf_rtaps base_conf)
          (conf_init_fn base_conf) (w0 data) (conf_mode base_conf);
  let mod_ := realize mod_ in
  let y0 := PySeq.slice_to (y data) (n_symbols * sps) in
  let rng0 := 0%Z in
  let '(z0, v0) := init mod_ rng0 (mkSignal y0) in
  let ol := (start (t z0) - stop (t z0))%Z in
  let '(sparams, params) := dict_split (iv_params v0) sparams_flatkeys in
  let state := iv_af_state v0 in
  let aux := iv_aux_inputs v0 in
  let const := iv_const v0 in
  Ok {| module := mod_;
        initvar := (params, state, aux, const, sparams);
        overlaps := ol;
        name := name |}.

(** [x * scale] and [x + shift] on a complex array *)
Definition array_scale (x : list (list (complex T))) (scale : R)
  : list (list (complex T)) :=
  map (map (fun c => Cplx (s_mul (re c) (s_const scale))
                          (s_mul (im c) (s_const scale)))) x.

Definition array_shift (x : list (list (complex T))) (shift : R)
  : list (list (complex T)) :=
  map (map (fun c => Cplx (s_add (re c) (s_const shift)) (im c))) x.

Definition apply_transform (x : list (list (complex T)))
    (scale_range : R * R) (p : R) (st : RandomState)
  : list (list (complex T)) * RandomState :=
  let '(u, st) := np_random_rand st in
  if Rlt_dec u p then
    let '(scale, st) :=
      np_random_uniform (fst scale_range) (snd scale_range) st in
    (array_scale x scale, st)
  else (x, st).

Definition apply_transform1 (x : list (list (complex T)))
    (shift_range : R * R) (p : R) (st : RandomState)
  : list (list (complex T)) * RandomState :=
  let '(u, st) := np_random_rand st in
  if Rlt_dec u p then
    let '(shift, st) :=
      np_random_uniform (fst shift_range) (snd shift_range) st in
    (array_shift x shift, st)
  else (x, st).

Definition loss_fn (module : Layer) (params : gmap (list string) Tensor)
    (state : State) (y : list (list (complex T))) (x : list Sym)
    (aux : gmap (list string) (list Sym)) (const : Const)
    (sparams : gmap (list string) Tensor) (st : RandomState)
  : (T * State) * RandomState :=
  let params := dict_merge params sparams in
  let '(y_transformed, st) := apply_transform y (1 / 2, 2)%R (1 / 2)%R st in
  let '(y_transformed1, st) :=
    apply_transform1 y (- 5, 5)%R (1 / 2)%R st in
  let variables :=
    {| v_params := params; v_aux_inputs := aux; v_const := const;
       v_state := state |} in
  let '(z_original, updated_state) :=
    apply module variables (mkSignal y) in
  let '(z_transformed, _) :=
    apply module variables (mkSignal y_transformed) in
  let '(z_transformed1, _) :=
    apply module variables (mkSignal y_transformed1) in
  let z_original_real := array_abs (val z_original) in
  let z_transformed_real := array_abs (val z_transformed) in
  let z_transformed_real1 := array_abs (val z_transformed1) in
  let z_transformed1_real1 := array_stop_gradient z_transformed_real1 in
  let contrastive_loss :=
    negative_cosine_similarity z_transformed_real z_transformed_real1 in
  ((contrastive_loss, updated_state), st).

(** [update_step] is compiled by [jit]; the random draws of [loss_fn] are
    those of the run that traces it, and the value and the gradient come
    from that one run. *)
Definition update_step (module : Layer) (optimizer : GradientTransformation)
    (opt_state : OptState) (params : gmap (list string) Tensor)
    (module_state : State) (y : list (list (complex T))) (x : list Sym)
    (aux : gmap (list string) (list Sym)) (const : Const)
    (sparams : gmap (list string) Tensor) (st : RandomState)
  : (T * OptState * State * gmap (list string) Tensor) * RandomState :=
  let compute_loss := fun params =>
    fst (loss_fn module params module_state y x aux const sparams st) in
  let st' :=
    snd (loss_fn module params module_state y x aux const sparams st) in
  let '((loss, new_module_state), grads) :=
    value_and_grad compute_loss params in
  let '(updates, new_opt_state) :=
    opt_update optimizer grads opt_state params in
  let new_params := apply_updates params updates in
  ((loss, new_opt_state, new_module_state, new_params), st').

Definition get_train_batch (ds : Input) (batchsize overlaps sps : Z)
  : result (Z * list (list (list (complex T)) * list Sym)) :=
  let flen := (batchsize + overlaps)%Z in
  let fstep := batchsize in
  ds_y ← frame_gen (y ds) (flen * sps) (fstep * sps);
  ds_x ← frame_gen (x ds) flen fstep;
  n_batches ← frame_shape (PySeq.len (x ds)) flen fstep;
  Ok (n_batches, zip ds_y ds_x).

(** The local variables of [train] that live across iterations, and the
    state of the random source. *)
Record Locals : Type := {
  l_params : gmap (list string) Tensor;
  l_module_state : State;
  l_aux : gmap (list string) (list Sym);
  l_const : Const;
  l_sparams : gmap (list string) Tensor;
  l_opt_state : OptState;
  l_random : RandomState;
}.

(** The body of the loop of [train] after the [break] test: the loss it
    computes and the local variables it leaves. *)
Definition train_body (model : Model) (optimizer : GradientTransformation)
    (l : Locals) (batch : list (list (complex T)) * list Sym)
  : T * Locals :=
  let '(y, x) := batch in
  let aux := dict_replace (l_aux l) "truth" x in
  let '((loss, opt_state, module_state, params), st) :=
    update_step (module model) optimizer (l_opt_state l) (l_params l)
      (l_module_state l) y x aux (l_const l) (l_sparams l) (l_random l) in
  (loss, {| l_params := params; l_module_state := module_state;
            l_aux := aux; l_const := l_const l;
            l_sparams := l_sparams l; l_opt_state := opt_state;
            l_random := st |}).

(** [for i, (y, x) in enumerate(batch_gen): if i >= n_iter: break; ...]
    from index [i] on: for every iteration that runs, the loss and the
    local variables after it. *)
Fixpoint train_loop (model : Model) (optimizer : GradientTransformation)
    (n_iter : Z) (i : Z)
    (batch_gen : list (list (list (complex T)) * list Sym)) (l : Locals)
  : list (T * Locals) :=
  match batch_gen with
  | [] => []
  | batch :: batch_gen =>
      if (n_iter <=? i)%Z then []
      else
        let '(loss, l) := train_body model optimizer l batch in
        (loss, l) :: train_loop model optimizer n_iter (i + 1) batch_gen l
  end.

(** [train] from the call of [get_train_batch] on, given what that call
    returned. *)
Definition train_on (model : Model) (n_iter : option Z)
    (optimizer : GradientTransformation) (st : RandomState)
    (batches : Z * list (list (list (complex T)) * list Sym))
  : list (T * Locals) :=
  let '(params, module_state, aux, const, sparams) := initvar model in
  let opt_state := opt_init optimizer params in
  let '(n_batch, batch_gen) := batches in
  let n_iter :=
    match n_iter with
    | None => n_batch
    | Some n_iter => Z.min n_iter n_batch
    end in
  train_loop model optimizer n_iter 0 batch_gen
    {| l_params := params; l_module_state := module_state; l_aux := aux;
       l_const := const; l_sparams := sparams; l_opt_state := opt_state;
       l_random := st |}.

(** [train] with, for every iteration, the local variables after it. *)
Definition train_trace (model : Model) (data : Input) (batch_size : Z)
    (n_iter : option Z) (optimizer : GradientTransformation)
    (st : RandomState) : result (list (T * Locals)) :=
  batches ← get_train_batch data batch_size (overlaps model) 2;
  Ok (train_on model n_iter optimizer st batches).

(** What one iteration yields: [loss, params, module_state]. *)
Definition progress (it : T * Locals)
  : T * gmap (list string) Tensor * State :=
  (fst it, l_params (snd it), l_module_state (snd it)).

(** [train]: the tuples the generator yields, in order. *)
Definition train (model : Model) (data : Input) (batch_size : Z)
    (n_iter : option Z) (optimizer : GradientTransformation)
    (st : RandomState)
  : result (list (T * gmap (list string) Tensor * State)) :=
  trace ← train_trace model data batch_size n_iter optimizer st;
  Ok (map progress trace).

Definition test (model : Model)
    (params : option (gmap (list string) Tensor)) (data : Input)
    (eval_range : Z * Z)
    (metric_fn : list (list (complex T)) -> list Sym -> R -> Z * Z -> Metric)
  : Metric * Signal :=
  let '(_, state, aux, const, sparams) := initvar model in
  let aux := dict_replace aux "truth" (x data) in
  let params :=
    match params with
    | None => (initvar model).1.1.1.1
    | Some params => params
    end in
  let '(z, _) :=
    apply (module model)
      {| v_params := dict_merge params sparams; v_aux_inputs := aux;
         v_const := const; v_state := state |}
      (mkSignal (y data)) in
  let metric :=
    metric_fn (val z) (PySeq.slice (x data) (start (t z)) (stop (t z)))
      (sqrt 10) eval_range in
  (metric, z).

End Model.

(** ** Concrete inputs *)

(** A layer with one parameter, used to observe where the derivative of the
    loss comes from. *)
Module GateProbe.
Local Open Scope R_scope.

(** One sample of two real-valued channels. *)
Definition y0 : list (list (complex dual)) :=
  [[Cplx (Dual (-3) 0) (Dual 0 0); Cplx (Dual 4 0) (Dual 0 0)]].

(** [re + theta * max(-7/2 - re, 0)] on the real part of a sample. *)
Definition rectify (theta : dual) (c : complex dual) : complex dual :=
  Cplx (s_add (re c)
          (s_mul theta
             (s_max (s_add (s_const (- 7 / 2)) (s_neg (re c))) (s_const 0))))
       (im c).

(** The layer applies [rectify] to every sample and has no state. *)
Definition layer : @Layer dual dual unit unit Z :=
  {| init := fun _ s =>
       (s, {| iv_params := {[ ["theta"%string] := Dual 0 0 ]};
              iv_af_state := tt; iv_aux_inputs := ∅; iv_const := tt |});
     apply := fun v s =>
       let theta := default (Dual 0 0) (v_params v !! ["theta"%string]) in
       ({| val := map (map (rectify theta)) (val s); t := t s |},
        v_state v) |}.

(** [theta = 0], differentiated with respect to [theta]. *)
Definition params : gmap (list string) dual :=
  {[ ["theta"%string] := Dual 0 1 ]}.

(** The draws: 3/4 (the first view is not scaled), 1/4 (the second view is
    shifted) and 2/5 (the shift is -5 + 10 * 2/5 = -1). *)
Definition draws : RandomState :=
  {| tape := fun n => match n with
                      | O => 3 / 4
                      | S O => 1 / 4
                      | _ => 2 / 5
                      end;
     pos := 0 |}.

Definition variables : @Variables dual unit unit Z :=
  {| v_params := dict_merge params ∅; v_aux_inputs := ∅;
     v_const := tt; v_state := tt |}.

(** The first augmented view of [y0] under [draws]. *)
Definition y_transformed : list (list (complex dual)) :=
  (apply_transform y0 (1 / 2, 2) (1 / 2) draws).1.

Definition loss : dual :=
  (loss_fn layer params tt y0 [] ∅ tt ∅ draws).1.1.
End GateProbe.

(** A small complete setting: a layer that returns its input and counts its
    calls, an optimizer that returns the gradient as the update, four target
    symbols and eight input samples. *)
Module Toy.
Local Open Scope Z_scope.

Definition layer : @Layer R Z Z unit Z :=
  {| init := fun _ s =>
       ({| val := val s; t := {| start := 1; stop := -1; sps := 2 |} |},
        {| iv_params := {[ ["w"%string] := 5; ["b"%string] := 7 ]};
           iv_af_state := 0;
           iv_aux_inputs := {[ ["truth"%string] := [] ]};
           iv_const := tt |});
     apply := fun v s =>
       ({| val := val s; t := {| start := 1; stop := -1; sps := 2 |} |},
        v_state v + 1) |}.

(** The same layer, initialized with another window. *)
Definition layer_reinit : @Layer R Z Z unit Z :=
  {| init := fun _ s =>
       (s, {| iv_params := ∅; iv_af_state := 0; iv_aux_inputs := ∅;
              iv_const := tt |});
     apply := apply layer |}.

(** The same layer, counting its calls in steps of two. *)
Definition layer_restate : @Layer R Z Z unit Z :=
  {| init := init layer;
     apply := fun v s => ((apply layer v s).1, v_state v + 2) |}.

#[export] Instance backend : @Backend R Z Z unit Z unit :=
  {| jax_grad := fun _ p => (fun _ => 1) <$> p;
     tensor_add := Z.add;
     realize := fun _ => layer |}.

Definition optimizer : @GradientTransformation Z unit :=
  {| opt_init := fun _ => tt;
     opt_update := fun grads _ _ => (grads, tt) |}.

Definition data : @Input R Z :=
  {| y := replicate 8 [Cplx 1%R 0%R]; x := [1; 2; 3; 4]; w0 := 0%R |}.

Definition conf : BaseConf unit :=
  {| conf_steps := 1; conf_dtaps := 3; conf_ntaps := 3; conf_rtaps := 3;
     conf_init_fn := (tt, tt); conf_mode := "train" |}.

Definition model : @Model R Z Z unit Z :=
  {| module := layer;
     initvar := ({[ ["w"%string] := 5 ]}, 0, {[ ["truth"%string] := [] ]},
                 tt, {[ ["b"%string] := 7 ]});
     overlaps := 2;
     name := "Model" |}.

(** No augmentation is ever drawn. *)
Definition draws : RandomState := {| tape := fun _ => 1%R; pos := 0 |}.

Definition locals : @Locals Z Z unit Z unit :=
  {| l_params := {[ ["w"%string] := 5 ]}; l_module_state := 0;
     l_aux := {[ ["truth"%string] := [] ]}; l_const := tt;
     l_sparams := {[ ["b"%string] := 7 ]}; l_opt_state := tt;
     l_random := draws |}.

(** The first batch of [data] for batch size 1 and overlap 2. *)
Definition batch0 : list (list (complex R)) * list Z :=
  (replicate 6 [Cplx 1%R 0%R], [1; 2; 3]).

Definition batch1 : list (list (complex R)) * list Z :=
  (replicate 6 [Cplx 1%R 0%R], [2; 3; 4]).

(** The loss and the local variables after the first iteration. *)
Definition first : R * @Locals Z Z unit Z unit :=
  train_body model optimizer locals batch0.

Definition metric_fn (z : list (list (complex R))) (x : list Z) (scale : R)
    (eval_range : Z * Z) : Z :=
  PySeq.len (PySeq.slice x eval_range.1 eval_range.2).
End Toy.

(** ** The other augmentations and the SimCLR loss *)

(** The exception of a name that is not bound. *)
Inductive PyNameError : Type :=
  | NameError (name : string).

Section Augmentations.
Context {T : Type} `{Scalar T}.

(** [np.random.choice([0, 1], size=n, p=[1 - p, p])]: one uniform draw per
    element, which selects 0 below the cumulative probability [1 - p] and
    1 from there on. *)
Fixpoint np_random_choice01 (p : R) (n : nat) (st : RandomState)
  : list Z * RandomState :=
  match n with
  | O => ([], st)
  | S n =>
      let '(u, st) := np_random_rand st in
      let '(mask, st) := np_random_choice01 p n st in
      ((if Rlt_dec u (1 - p) then 0%Z else 1%Z) :: mask, st)
  end.

(** [x * mask] for a mask with one entry per row of [x], broadcast over the
    columns. *)
Definition array_mask (x : list (list (complex T))) (mask : list Z)
  : list (list (complex T)) :=
  zip_with
    (fun row m =>
       map (fun c => Cplx (s_mul (re c) (s_const (IZR m)))
                          (s_mul (im c) (s_const (IZR m)))) row)
    x mask.

(** [apply_transform2]; [np.random.choice] refuses the probabilities
    [[1 - p, p]] when [p > 1]. *)
Definition apply_transform2 (x : list (list (complex T)))
    (mask_range : Z * Z) (p : R) (st : RandomState)
  : result (list (list (complex T))) * RandomState :=
  let '(u, st) := np_random_rand st in
  if Rlt_dec u p then
    let total_length := length x in
    if Rlt_dec 1 p then
      (Raise (ValueError "probabilities are not non-negative"), st)
    else
      let '(mask, st) := np_random_choice01 p total_length st in
      (Ok (array_mask x mask), st)
  else (Ok x, st).

(** [apply_transform4]: the file imports no [signal], so the call of
    [signal.iirnotch] raises [NameError] after the frequency is drawn. *)
Definition apply_transform4 (x : list (list (complex T))) (range : R * R)
    (band_width sampling_rate p : R) (st : RandomState)
  : (PyNameError + list (list (complex T))) * RandomState :=
  let '(u, st) := np_random_rand st in
  if Rlt_dec u p then
    let '(low_freq, st) := np_random_uniform (fst range) (snd range) st in
    let center_freq := (low_freq + band_width / 2)%R in
    (inl (NameError "signal"), st)
  else (inr x, st).

End Augmentations.

(** [simclr_contrastive_loss(z1, z2, temperature, LARGE_NUM)] on real
    arrays.  [representations] stacks the normalized rows; entry [(i, j)]
    of the similarity matrix is the product of rows [i] and [j] over the
    temperature, less [LARGE_NUM] on the diagonal; [positives + negatives]
    adds entry [j] of [negatives] to column [j] of [positives]. *)
Definition simclr_contrastive_loss (z1 z2 : list (list R))
    (temperature LARGE_NUM : R) : R :=
  let batch_size := length z1 in
  let z1 := l2_normalize z1 in
  let z2 := l2_normalize z2 in
  let representations := z1 ++ z2 in
  let similarity_matrix :=
    map (fun r => map (fun s => (dot r s / temperature)%R) representations)
      representations in
  let similarity_matrix :=
    imap (fun i row =>
            imap (fun j a =>
                    (a - (if decide (i = j) then 1 else 0) * LARGE_NUM)%R)
              row)
      similarity_matrix in
  let positives :=
    map (fun row => map (fun a => (exp a / temperature)%R)
                      (drop batch_size row))
      (take batch_size similarity_matrix) in
  let negatives :=
    zip_with Rplus
      (map (fun row => s_sum (map (fun a => (exp a / temperature)%R)
                                (take batch_size row)))
         (take batch_size similarity_matrix))
      (map (fun row => s_sum (map (fun a => (exp a / temperature)%R)
                                (drop (S batch_size) row)))
         (take batch_size similarity_matrix)) in
  let loss :=
    map (fun row => zip_with (fun a n => (- ln (a / (a + n)))%R)
                      row negatives)
      positives in
  s_mean (concat loss).

(** ** The normalization and the loss on binary32 values

    JAX computes [l2_normalize] and [negative_cosine_similarity] on
    [float32] arrays: the magnitudes of a [complex64] signal, the types the
    initializers of [fdbp_init] default to and JAX's own default.  The
    operations are those of IEEE 754 binary32, rounded to nearest even:
    24 bits of precision, exponents up to 128. *)

Module F32.

Definition prec : Z := 24.
Definition emax : Z := 128.

(** The conversion of an integer (the [int] count of [jnp.mean]) *)
Definition of_Z (n : Z) : spec_float := binary_normalize prec emax n 0 false.

Definition add : spec_float -> spec_float -> spec_float := SFadd prec emax.
Definition mul : spec_float -> spec_float -> spec_float := SFmul prec emax.
Definition div : spec_float -> spec_float -> spec_float := SFdiv prec emax.
Definition sqrt : spec_float -> spec_float := SFsqrt prec emax.
Definition neg : spec_float -> spec_float := SFopp.

(** [jnp.maximum]: NaN when an argument is NaN. *)
Definition maximum (a b : spec_float) : spec_float :=
  match SFcompare a b with
  | None => S754_nan
  | Some Lt => b
  | Some _ => a
  end.

(** The default [epsilon=1e-12] as JAX passes it to [jnp.maximum]: the
    binary32 value nearest to it, [9223372 * 2^-63]. *)
Definition epsilon : spec_float := S754_finite false 9223372 (-63).

(** [jnp.sum] of a vector: an accumulator that starts at [+0] and takes
    the entries one after the other.  (XLA does not fix the order of a
    reduction; on the rows of one or two entries of the examples every
    order gives the same sum.) *)
Definition sum (v : list spec_float) : spec_float :=
  foldl add (S754_zero false) v.

(** [jnp.mean] of a vector: the sum over the count; over no element it is
    [0 / 0], which is NaN. *)
Definition mean (v : list spec_float) : spec_float :=
  div (sum v) (of_Z (Z.of_nat (length v))).

(** [l2_normalize(x, axis=1)] on one row of [x] *)
Definition l2_normalize_row (x : list spec_float) : list spec_float :=
  let square_sum := sum (map (fun a => mul a a) x) in
  let x_inv_norm := sqrt (maximum square_sum epsilon) in
  map (fun a => div a x_inv_norm) x.

(** [l2_normalize(x, axis=1)] *)
Definition l2_normalize (x : list (list spec_float))
  : list (list spec_float) :=
  map l2_normalize_row x.

(** [negative_cosine_similarity(p, z)] *)
Definition negative_cosine_similarity (p z : list (list spec_float))
  : spec_float :=
  let p := l2_normalize p in
  let z := l2_normalize z in
  neg (mean (zip_with (fun r s => sum (zip_with mul r s)) p z)).

(** A zero of either sign; a value that is not NaN and not infinite. *)
Definition is_zero (a : spec_float) : bool :=
  match a with S754_zero _ => true | _ => false end.

Definition is_finite (a : spec_float) : bool :=
  match a with S754_zero _ | S754_finite _ _ _ => true | _ => false end.

(** A value that is neither negative nor NaN: [+0], a positive finite
    value or [+inf]. *)
Definition nonneg (a : spec_float) : bool :=
  match a with
  | S754_zero false | S754_finite false _ _ | S754_infinity false => true
  | _ => false
  end.

(** A finite value of magnitude [2^65] or more: its square overflows. *)
Definition large (a : spec_float) : bool :=
  match a with
  | S754_finite _ m e => (66 <=? Zdigits2 (Z.pos m) + e)%Z
  | _ => false
  end.

(** A row of zeros, and an array of finite values. *)
Definition zeros (r : list spec_float) : Prop :=
  Forall (fun a => is_zero a = true) r.

Definition finite (x : list (list spec_float)) : Prop :=
  Forall (Forall (fun a => is_finite a = true)) x.

(** The integers of the examples, as binary32 values. *)
Definition one : spec_float := of_Z 1.
Definition three : spec_float := of_Z 3.
Definition four : spec_float := of_Z 4.

End F32.

(** * Checks of the embedding on small inputs *)

Example slice_negative_stop_example :
  PySeq.slice [1; 2; 3; 4; 5]%Z 1 (-1) = [2; 3; 4]%Z.
Proof. reflexivity. Qed.

Example slice_past_the_end_example :
  PySeq.slice [1; 2; 3]%Z 2 10 = [3]%Z /\ PySeq.slice [1; 2; 3]%Z 2 1 = [].
Proof. split; reflexivity. Qed.

Example frame_gen_example :
  frame_gen [1; 2; 3; 4; 5; 6; 7]%Z 4 2
  = Ok [[1; 2; 3; 4]; [3; 4; 5; 6]]%Z.
Proof. reflexivity. Qed.

Example frame_gen_zero_step_example :
  frame_gen [1; 2; 3]%Z 2 0 = Raise ZeroDivisionError.
Proof. reflexivity. Qed.

Example assert_taps_example :
  _assert_taps 261 40 61 2
  = Raise (AssertionError "ntaps must be odd number, got 40 instead").
Proof. reflexivity. Qed.

Example make_base_module_test_example :
  make_base_module 3 261 41 61 (tt, tt) 0%R "test"
  = Ok (Serial [ FDBP 3 261 41 tt tt;
                 BatchPowerNorm "test";
                 MIMOFOEAf "FOEAf" 0%R
                   (PiecewiseConstant [200000%Z] [true; false]) 61;
                 VmapConv1d "RConv" 61;
                 MIMOAF (PiecewiseConstant [200000%Z] [true; false]) ]).
Proof. reflexivity. Qed.

Example get_train_batch_example :
  get_train_batch Toy.data 1 2 2 = Ok (2%Z, [Toy.batch0; Toy.batch1]).
Proof. reflexivity. Qed.

(** [F32.epsilon] is a binary32 value, and no other is nearer to [1e-12]:
    it is off by less than half a unit in the last place, [2^-64]. *)
Example epsilon_example :
  valid_binary F32.prec F32.emax F32.epsilon = true /\
  exists m, F32.epsilon = S754_finite false m (-63) /\
    (Z.abs (2 ^ 63 - Z.pos m * 10 ^ 12) * 2 < 10 ^ 12)%Z.
Proof. split; [reflexivity|]. eexists. split; [reflexivity|]. reflexivity. Qed.

(** In binary32 the loss of [[1, 4]] against itself is [-(1 + 2^-23)],
    which is less than [-1]. *)
Example ncs_binary32_range_example :
  F32.negative_cosine_similarity [[F32.one; F32.four]] [[F32.one; F32.four]]
  = S754_finite true 8388609 (-23) /\
  SFltb (S754_finite true 8388609 (-23)) (F32.of_Z (-1)) = true.
Proof. split; vm_compute; reflexivity. Qed.

(** In binary32 the loss of [[1, 1]] against itself is [-(1 - 2^-24)], and
    it is [-1] once the first row is multiplied by 3. *)
Example ncs_binary32_rescale_example :
  F32.negative_cosine_similarity [[F32.one; F32.one]] [[F32.one; F32.one]]
  = S754_finite true 16777215 (-24) /\
  F32.negative_cosine_similarity
    (map (map (F32.mul F32.three)) [[F32.one; F32.one]])
    [[F32.one; F32.one]]
  = F32.of_Z (-1).
Proof. split; vm_compute; reflexivity. Qed.

(** In binary32 the row [[2^-24]] is below the floor: against [[1]] its
    loss is [-16000000 * 2^-28], about [-0.06], and it is [-1] once the row
    is multiplied by [2^10], a multiplication that rounds nothing. *)
Example ncs_binary32_floor_example :
  F32.negative_cosine_similarity [[S754_finite false 8388608 (-47)]]
    [[F32.one]]
  = S754_finite true 16000000 (-28) /\
  F32.mul (F32.of_Z 1024) (S754_finite false 8388608 (-47))
  = S754_finite false 8388608 (-37) /\
  F32.negative_cosine_similarity [[S754_finite false 8388608 (-37)]]
    [[F32.one]]
  = F32.of_Z (-1).
Proof. repeat split; vm_compute; reflexivity. Qed.

(** In binary32 the mean of no rows is NaN. *)
Example ncs_binary32_empty_example :
  F32.negative_cosine_similarity [] [] = S754_nan.
Proof. reflexivity. Qed.

(** * Properties *)

(** ** Cosine-similarity loss on real arrays

    The lemmas on the range and on rescaling hold in exact arithmetic; the
    section on binary32 values that follows shows what rounding leaves of
    them. *)

Section CosineSimilarity.
Local Open Scope R_scope.
Implicit Types (r s : list R) (p z : list (list R)).

Lemma sumsq_nil : sumsq [] = 0.
Proof. reflexivity. Qed.

Lemma sumsq_cons a r : sumsq (a :: r) = a * a + sumsq r.
Proof. reflexivity. Qed.

Lemma dot_cons a b r s : dot (a :: r) (b :: s) = a * b + dot r s.
Proof. reflexivity. Qed.

Lemma sumsq_nonneg r : 0 <= sumsq r.
Proof.
  induction r as [|a r IH]; [rewrite sumsq_nil; lra|].
  rewrite sumsq_cons. nra.
Qed.

Lemma dot_comm r s : dot r s = dot s r.
Proof.
  revert s; induction r as [|a r IH]; intros [|b s]; try reflexivity.
  rewrite !dot_cons, IH. ring.
Qed.

(** The Cauchy-Schwarz inequality, by induction on the rows: the step is
    [2 a b D <= a^2 Q + b^2 P] for [D^2 <= P Q]. *)
Lemma cauchy_schwarz r s : dot r s * dot r s <= sumsq r * sumsq s.
Proof.
  revert s; induction r as [|a r IH]; intros [|b s].
  - cbn. lra.
  - pose proof (sumsq_nonneg (b :: s)). cbn in *. nra.
  - pose proof (sumsq_nonneg (a :: r)). cbn in *. nra.
  - rewrite dot_cons, !sumsq_cons.
    specialize (IH s).
    pose proof (sumsq_nonneg r) as Hr. pose proof (sumsq_nonneg s) as Hs.
    set (D := dot r s) in *. set (P := sumsq r) in *.
    set (Q := sumsq s) in *.
    assert (Hk : 2 * (a * b) * D <= a * a * Q + b * b * P).
    { destruct (Rle_dec 0 ((a * b) * D)) as [Hpos|Hneg]; [|nra].
      assert (Hsq : (2 * (a * b) * D) * (2 * (a * b) * D)
                    <= (a * a * Q + b * b * P) * (a * a * Q + b * b * P)).
      { assert (4 * (a * a) * (b * b) * (D * D)
                <= 4 * (a * a) * (b * b) * (P * Q)).
        { apply Rmult_le_compat_l; [nra|lra]. }
        pose proof (Rle_0_sqr (a * a * Q - b * b * P)) as Hs2.
        unfold Rsqr in Hs2. lra. }
      assert (0 <= a * a * Q + b * b * P) by nra.
      apply Rsqr_incr_0; unfold Rsqr; lra. }
    nra.
Qed.

Lemma eps_pos : 0 < eps.
Proof. unfold eps. apply Rinv_0_lt_compat. apply pow_lt. lra. Qed.

Lemma sqrt_val x v : 0 <= v -> v * v = x -> sqrt x = v.
Proof. intros Hv <-. apply sqrt_square, Hv. Qed.

Lemma row_norm_pos r : 0 < row_norm r.
Proof.
  unfold row_norm. apply sqrt_lt_R0.
  pose proof eps_pos. pose proof (Rmax_r (sumsq r) eps). lra.
Qed.

Lemma row_norm_sq r : row_norm r * row_norm r = Rmax (sumsq r) eps.
Proof.
  unfold row_norm. apply sqrt_sqrt.
  pose proof eps_pos. pose proof (Rmax_r (sumsq r) eps). lra.
Qed.

Lemma l2_normalize_row_eq r :
  l2_normalize_row eps r = map (fun a => a / row_norm r) r.
Proof. reflexivity. Qed.

Lemma dot_div r s d e :
  dot (map (fun a => a / d) r) (map (fun a => a / e) s) = dot r s / (d * e).
Proof.
  revert s; induction r as [|a r IH]; intros [|b s]; cbn [map];
    try (unfold dot; cbn; unfold Rdiv; ring).
  rewrite !dot_cons, IH. unfold Rdiv.
  destruct (Req_dec_T d 0) as [->|Hd].
  { rewrite !Rmult_0_l, Rinv_0. ring. }
  destruct (Req_dec_T e 0) as [->|He].
  { rewrite !Rmult_0_r, Rinv_0. ring. }
  field. auto.
Qed.

(** The cosine of two normalized rows. *)
Lemma row_cosine_bounds r s :
  -1 <= dot (l2_normalize_row eps r) (l2_normalize_row eps s) <= 1.
Proof.
  rewrite !l2_normalize_row_eq, dot_div.
  pose proof (row_norm_pos r) as Hr. pose proof (row_norm_pos s) as Hs.
  pose proof (row_norm_sq r) as Hr2. pose proof (row_norm_sq s) as Hs2.
  pose proof (cauchy_schwarz r s) as Hcs.
  pose proof (Rmax_l (sumsq r) eps). pose proof (Rmax_l (sumsq s) eps).
  pose proof (sumsq_nonneg r). pose proof (sumsq_nonneg s).
  set (d := row_norm r) in *. set (e := row_norm s) in *.
  assert (Hde : 0 < d * e) by nra.
  assert (Hsq : dot r s * dot r s <= (d * e) * (d * e)).
  { replace (d * e * (d * e)) with ((d * d) * (e * e)) by ring.
    rewrite Hr2, Hs2. nra. }
  assert (Habs : - (d * e) <= dot r s <= d * e).
  { split.
    - destruct (Rle_dec 0 (dot r s)); [lra|].
      apply Ropp_le_cancel. rewrite Ropp_involutive.
      apply Rsqr_incr_0; unfold Rsqr; lra.
    - destruct (Rle_dec (dot r s) 0); [lra|].
      apply Rsqr_incr_0; unfold Rsqr; lra. }
  split; apply Rmult_le_reg_r with (d * e); try lra;
    unfold Rdiv; rewrite Rmult_assoc, Rinv_l; lra.
Qed.

Lemma s_sum_bounds (v : list R) :
  Forall (fun a => -1 <= a <= 1) v ->
  - INR (length v) <= s_sum v <= INR (length v).
Proof.
  induction 1 as [|a v Ha _ IH].
  - cbn. lra.
  - change (s_sum (a :: v)) with (a + s_sum v).
    rewrite length_cons, S_INR. lra.
Qed.

Lemma s_mean_bounds (v : list R) :
  Forall (fun a => -1 <= a <= 1) v -> -1 <= s_mean v <= 1.
Proof.
  intros Hv. pose proof (s_sum_bounds v Hv) as Hb.
  unfold s_mean. change (s_div ?a ?b) with (a / b). cbn [s_const scalar_R].
  destruct v as [|a v].
  - cbn. unfold Rdiv. rewrite Rinv_0. lra.
  - assert (0 < INR (length (a :: v))) by (apply lt_0_INR; cbn; lia).
    set (n := INR (length (a :: v))) in *.
    split; apply Rmult_le_reg_r with n; try lra;
      unfold Rdiv; rewrite Rmult_assoc, Rinv_l; lra.
Qed.

Lemma ncs_eq p z :
  negative_cosine_similarity p z =
  - s_mean (zip_with dot (map (l2_normalize_row eps) p)
                         (map (l2_normalize_row eps) z)).
Proof. reflexivity. Qed.

Lemma ncs_bounds p z : -1 <= negative_cosine_similarity p z <= 1.
Proof.
  rewrite ncs_eq.
  enough (-1 <= s_mean (zip_with dot (map (l2_normalize_row eps) p)
                          (map (l2_normalize_row eps) z)) <= 1) by lra.
  apply s_mean_bounds.
  revert z; induction p as [|r p IH]; intros [|s z]; cbn; try constructor.
  - apply row_cosine_bounds.
  - apply IH.
Qed.

Lemma sumsq_scale c r : sumsq (map (Rmult c) r) = c * c * sumsq r.
Proof.
  induction r as [|a r IH]; cbn [map].
  - rewrite sumsq_nil. ring.
  - rewrite !sumsq_cons, IH. ring.
Qed.

(** Above the floor, the divisor scales with the row. *)
Lemma l2_normalize_row_scale c r :
  0 < c -> eps <= sumsq r -> eps <= sumsq (map (Rmult c) r) ->
  l2_normalize_row eps (map (Rmult c) r) = l2_normalize_row eps r.
Proof.
  intros Hc Hr Hcr.
  assert (Hn : row_norm (map (Rmult c) r) = c * row_norm r).
  { unfold row_norm. rewrite !Rmax_left by lra.
    rewrite sumsq_scale, sqrt_mult_alt by nra.
    rewrite sqrt_square by lra. reflexivity. }
  rewrite !l2_normalize_row_eq, Hn, map_map.
  pose proof (row_norm_pos r) as Hpos.
  apply map_ext. intros a. field. lra.
Qed.

Lemma l2_normalize_row_scale_zero c r :
  Forall (fun a => a = 0) r ->
  l2_normalize_row eps (map (Rmult c) r) = l2_normalize_row eps r.
Proof.
  intros Hz. f_equal.
  induction Hz as [|a r -> _ IH]; cbn [map]; [reflexivity|].
  rewrite IH. f_equal. ring.
Qed.

Lemma l2_normalize_scale_row i c p r :
  p !! i = Some r ->
  l2_normalize_row eps (map (Rmult c) r) = l2_normalize_row eps r ->
  l2_normalize (scale_row i c p) = l2_normalize p.
Proof.
  unfold scale_row, l2_normalize. fold eps.
  revert i; induction p as [|r' p IH]; intros [|i] Hi Hr;
    cbn in Hi |- *; try discriminate.
  - injection Hi as ->. rewrite Hr. reflexivity.
  - f_equal. apply IH; assumption.
Qed.

Lemma l2_normalize_rescalable i c p r :
  0 < c -> p !! i = Some r -> rescalable c r ->
  l2_normalize (scale_row i c p) = l2_normalize p.
Proof.
  intros Hc Hi [Hz|[Hr Hcr]]; apply (l2_normalize_scale_row i c p r Hi).
  - apply l2_normalize_row_scale_zero, Hz.
  - apply l2_normalize_row_scale; assumption.
Qed.




(** C10: [negative_cosine_similarity] is symmetric in its two arguments,
    for real arrays of the same shape: both are normalized row by row by
    the same function, and the sum of products of two rows does not depend
    on their order. *)
Theorem ncs_symmetric p z :
  same_shape p z ->
  negative_cosine_similarity p z = negative_cosine_similarity z p.
Proof.
  intros Hshape. rewrite !ncs_eq. do 2 f_equal.
  induction Hshape as [|r s p z _ _ IH]; [reflexivity|].
  cbn [map zip_with]. rewrite IH, dot_comm. reflexivity.
Qed.

End CosineSimilarity.

(** ** Cosine-similarity loss on binary32 values *)

Section Binary32.
Local Open Scope Z_scope.

(** *** Rounding

    The number of binary digits of a mantissa, and what rounding does to a
    mantissa and its exponent. *)

Lemma digits2_pos_size p : digits2_pos p = Pos.size p.
Proof. induction p; cbn; congruence. Qed.

Lemma Zdigits2_log2 m : 0 < m -> Zdigits2 m = Z.log2 m + 1.
Proof.
  destruct m as [|p|p]; try lia. intros _. cbn [Zdigits2].
  rewrite digits2_pos_size. destruct p; cbn; lia.
Qed.

Lemma Zdigits2_nonneg m : 0 <= Zdigits2 m.
Proof. destruct m; cbn; lia. Qed.

Lemma Zdigits2_pos m : 0 < m -> 0 < Zdigits2 m.
Proof. destruct m; cbn; lia. Qed.

Lemma Zdigits2_shiftr m n :
  0 <= m -> 0 <= n -> Zdigits2 (Z.shiftr m n) = Z.max (Zdigits2 m - n) 0.
Proof.
  intros Hm Hn. destruct (Z.eq_dec m 0) as [->|Hm0].
  { rewrite Z.shiftr_0_l. cbn. lia. }
  assert (Hpos : 0 < m) by lia.
  rewrite (Zdigits2_log2 m Hpos).
  destruct (Z.eq_dec (Z.shiftr m n) 0) as [Hz|Hz].
  - rewrite Hz. apply Z.shiftr_eq_0_iff in Hz.
    change (Zdigits2 0) with 0. lia.
  - assert (0 <= Z.shiftr m n) by (apply Z.shiftr_nonneg; lia).
    rewrite Zdigits2_log2 by lia.
    rewrite Z.log2_shiftr by lia.
    assert (~ Z.log2 m < n).
    { intros Hl. apply Hz. apply Z.shiftr_eq_0_iff. right. lia. }
    lia.
Qed.

Lemma Zdigits2_succ m : 0 <= m -> Zdigits2 (m + 1) <= Zdigits2 m + 1.
Proof.
  intros Hm. destruct (Z.eq_dec m 0) as [->|Hm0]; [cbv; discriminate|].
  rewrite !Zdigits2_log2 by lia.
  pose proof (Z.log2_succ_le m). unfold Z.succ in *. lia.
Qed.

Lemma Zdigits2_le a b : 0 <= a <= b -> Zdigits2 a <= Zdigits2 b.
Proof.
  intros [Ha Hab]. destruct (Z.eq_dec a 0) as [->|Ha0].
  { apply Zdigits2_nonneg. }
  rewrite !Zdigits2_log2 by lia.
  pose proof (Z.log2_le_mono a b Hab). lia.
Qed.

Lemma Zdigits2_mul a b :
  0 < a -> 0 < b -> Zdigits2 a + Zdigits2 b - 1 <= Zdigits2 (a * b).
Proof.
  intros Ha Hb. rewrite !Zdigits2_log2 by lia.
  pose proof (Z.log2_mul_below a b Ha Hb). lia.
Qed.

Lemma Zdigits2_shiftl m s :
  0 < m -> 0 <= s -> Zdigits2 (Z.shiftl m s) = Zdigits2 m + s.
Proof.
  intros Hm Hs.
  assert (0 < Z.shiftl m s).
  { rewrite Z.shiftl_mul_pow2 by lia. apply Z.mul_pos_pos; [lia|].
    apply Z.pow_pos_nonneg; lia. }
  rewrite !Zdigits2_log2 by lia. rewrite Z.log2_shiftl by lia. lia.
Qed.

Lemma shr_1_m r : 0 <= shr_m r -> shr_m (shr_1 r) = Z.div2 (shr_m r).
Proof.
  destruct r as [[|[p|p|]|p] ? ?]; cbn; intros; try lia; reflexivity.
Qed.

Lemma shr_m_iter p r :
  0 <= shr_m r ->
  shr_m (SpecFloat.iter_pos shr_1 p r) = Z.shiftr (shr_m r) (Z.pos p).
Proof.
  revert r; induction p as [p IH|p IH|]; intros r Hr;
    cbn [SpecFloat.iter_pos].
  - assert (H1 : 0 <= shr_m (shr_1 r))
      by (rewrite shr_1_m by lia; apply Z.div2_nonneg; lia).
    assert (H2 : 0 <= shr_m (SpecFloat.iter_pos shr_1 p (shr_1 r)))
      by (rewrite IH by lia; apply Z.shiftr_nonneg; lia).
    rewrite IH, IH, shr_1_m by lia.
    rewrite Z.div2_spec, !Z.shiftr_shiftr by lia. f_equal. lia.
  - assert (H2 : 0 <= shr_m (SpecFloat.iter_pos shr_1 p r))
      by (rewrite IH by lia; apply Z.shiftr_nonneg; lia).
    rewrite IH, IH by lia.
    rewrite !Z.shiftr_shiftr by lia. f_equal. lia.
  - rewrite shr_1_m by lia. apply Z.div2_spec.
Qed.

Lemma fexp_eq k : fexp F32.prec F32.emax k = Z.max (k - 24) (-149).
Proof. reflexivity. Qed.

Lemma shr_fexp_spec m e l :
  0 <= m ->
  let n := Z.max (Zdigits2 m + e - 24) (-149) - e in
  shr_m (shr_fexp F32.prec F32.emax m e l).1
  = (if 0 <? n then Z.shiftr m n else m) /\
  (shr_fexp F32.prec F32.emax m e l).2 = (if 0 <? n then e + n else e).
Proof.
  intros Hm n. unfold shr_fexp. rewrite fexp_eq. fold n.
  assert (Hl : shr_m (shr_record_of_loc m l) = m)
    by (destruct l as [|[]]; reflexivity).
  unfold shr. destruct n as [|p|p] eqn:Hn; cbn [fst snd Z.ltb Z.compare].
  - auto.
  - split; [|reflexivity]. rewrite shr_m_iter by lia. rewrite Hl. reflexivity.
  - auto.
Qed.

Lemma round_nearest_even_range m l :
  m <= round_nearest_even m l <= m + 1.
Proof. destruct l as [|[]]; cbn; try lia. destruct (Z.even m); lia. Qed.

(** What [binary_round_aux] returns on a mantissa that is not negative. *)
Lemma binary_round_aux_spec s mx ex lx :
  0 <= mx ->
  exists m3 e3,
    0 <= m3 /\
    binary_round_aux F32.prec F32.emax s mx ex lx
    = match m3 with
      | Z0 => S754_zero s
      | Zpos m => if e3 <=? 104 then S754_finite s m e3 else S754_infinity s
      | Zneg _ => S754_nan
      end /\
    ex <= e3 /\ Zdigits2 mx + ex - 24 <= e3 /\
    e3 <= Z.max ex (Z.max (Zdigits2 mx + ex - 23) (-149)) /\
    (-149 <= ex \/ -125 <= Zdigits2 mx + ex -> 0 < mx -> 0 < m3).
Proof.
  intros Hmx. unfold binary_round_aux.
  destruct (shr_fexp_spec mx ex lx Hmx) as [Hm1 He1].
  destruct (shr_fexp F32.prec F32.emax mx ex lx) as [mrs1 e1].
  cbn [fst snd] in Hm1, He1.
  set (m1 := shr_m mrs1) in *.
  set (m2 := round_nearest_even m1 (loc_of_shr_record mrs1)).
  pose proof (round_nearest_even_range m1 (loc_of_shr_record mrs1)) as Hr.
  fold m2 in Hr.
  set (d := Zdigits2 mx) in *.
  set (n := Z.max (d + ex - 24) (-149) - ex) in *.
  pose proof (Zdigits2_nonneg mx) as Hd0. fold d in Hd0.
  assert (Hm1' : 0 <= m1).
  { rewrite Hm1. destruct (Z.ltb_spec 0 n); [apply Z.shiftr_nonneg|]; lia. }
  assert (Hm2 : 0 <= m2) by lia.
  destruct (shr_fexp_spec m2 e1 loc_Exact Hm2) as [Hm3 He3].
  destruct (shr_fexp F32.prec F32.emax m2 e1 loc_Exact) as [mrs3 e3].
  cbn [fst snd] in Hm3, He3.
  set (d2 := Zdigits2 m2) in *.
  set (n2 := Z.max (d2 + e1 - 24) (-149) - e1) in *.
  set (m3 := shr_m mrs3) in *.
  exists m3, e3.
  assert (Hm3' : 0 <= m3).
  { rewrite Hm3. destruct (Z.ltb_spec 0 n2); [apply Z.shiftr_nonneg|]; lia. }
  split; [exact Hm3'|]. split.
  { destruct m3; reflexivity. }
  pose proof (Zdigits2_succ m1 Hm1') as Hds.
  pose proof (Zdigits2_le m2 (m1 + 1) ltac:(lia)) as Hd2.
  pose proof (Zdigits2_le m1 m2 ltac:(lia)) as Hd12.
  pose proof (Zdigits2_nonneg m2) as Hd20.
  fold d2 in Hd2, Hd12, Hd20.
  assert (Hd1 : Zdigits2 m1 = if 0 <? n then Z.max (d - n) 0 else d).
  { rewrite Hm1. destruct (Z.ltb_spec 0 n); [|reflexivity].
    apply Zdigits2_shiftr; lia. }
  assert (Hpos1 : -149 <= ex \/ -125 <= d + ex -> 0 < mx -> 0 < m1).
  { intros Hc Hp. pose proof (Zdigits2_pos mx Hp) as Hdp. fold d in Hdp.
    assert (Hd1p : 0 < Zdigits2 m1).
    { rewrite Hd1. destruct (Z.ltb_spec 0 n); lia. }
    destruct m1; cbn in Hd1p; lia. }
  assert (Hpos3 : -149 <= e1 -> 0 < m2 -> 0 < m3).
  { intros Hc Hp. pose proof (Zdigits2_pos m2 Hp) as Hdp. fold d2 in Hdp.
    assert (Hd3 : 0 < Zdigits2 m3).
    { rewrite Hm3. destruct (Z.ltb_spec 0 n2); [|lia].
      rewrite Zdigits2_shiftr by lia. fold d2. lia. }
    destruct m3; cbn in Hd3; lia. }
  rewrite He3, He1. rewrite He1 in Hpos3.
  rewrite Hd1 in Hds, Hd12.
  destruct (Z.ltb_spec 0 n), (Z.ltb_spec 0 n2); repeat split; try lia.
  all: intros Hc Hp; apply Hpos3; [lia|]; specialize (Hpos1 Hc Hp); lia.
Qed.

Lemma binary_round_aux_finite s mx ex lx :
  0 <= mx -> ex <= 104 -> Zdigits2 mx + ex <= 127 ->
  F32.is_finite (binary_round_aux F32.prec F32.emax s mx ex lx) = true.
Proof.
  intros Hmx He Hd.
  destruct (binary_round_aux_spec s mx ex lx Hmx)
    as (m3 & e3 & Hm3 & -> & _ & _ & Hup & _).
  destruct m3 as [|m|m]; [reflexivity| |lia].
  destruct (Z.leb_spec e3 104); [reflexivity|lia].
Qed.

Lemma binary_round_aux_overflow s mx ex lx :
  0 < mx -> 130 <= Zdigits2 mx + ex ->
  binary_round_aux F32.prec F32.emax s mx ex lx = S754_infinity s.
Proof.
  intros Hmx Hd.
  destruct (binary_round_aux_spec s mx ex lx ltac:(lia))
    as (m3 & e3 & Hm3 & -> & _ & Hlow & _ & Hpos).
  specialize (Hpos ltac:(lia) Hmx).
  destruct m3 as [|m|m]; try lia.
  destruct (Z.leb_spec e3 104); [lia|reflexivity].
Qed.

Lemma binary_round_aux_positive s mx ex lx :
  0 < mx -> -149 <= ex ->
  binary_round_aux F32.prec F32.emax s mx ex lx = S754_infinity s \/
  exists m e,
    binary_round_aux F32.prec F32.emax s mx ex lx = S754_finite s m e /\
    ex <= e.
Proof.
  intros Hmx He.
  destruct (binary_round_aux_spec s mx ex lx ltac:(lia))
    as (m3 & e3 & Hm3 & -> & Hlow & _ & _ & Hpos).
  specialize (Hpos ltac:(lia) Hmx).
  destruct m3 as [|m|m]; try lia.
  destruct (Z.leb_spec e3 104); [right; eauto|left; reflexivity].
Qed.



(** *** Squares and their sum *)

Lemma mul_self_nonneg a :
  F32.is_finite a = true -> F32.nonneg (F32.mul a a) = true.
Proof.
  destruct a as [s|s| |s m e]; try discriminate; intros _.
  - cbn. destruct s; reflexivity.
  - unfold F32.mul, SFmul.
    replace (xorb s s) with false by (destruct s; reflexivity).
    destruct (binary_round_aux_spec false (Z.pos (m * m)) (e + e) loc_Exact)
      as (m3 & e3 & Hm3 & -> & _); [lia|].
    destruct m3 as [|m'|m']; [reflexivity| |lia].
    destruct (e3 <=? 104); reflexivity.
Qed.

Lemma mul_self_large a :
  F32.large a = true -> F32.mul a a = S754_infinity false.
Proof.
  destruct a as [s|s| |s m e]; try discriminate. cbn [F32.large].
  intros Hl. apply Z.leb_le in Hl.
  unfold F32.mul, SFmul.
  replace (xorb s s) with false by (destruct s; reflexivity).
  apply binary_round_aux_overflow; [lia|].
  pose proof (Zdigits2_mul (Z.pos m) (Z.pos m) ltac:(lia) ltac:(lia)) as Hd.
  change (Z.pos m * Z.pos m) with (Z.pos (m * m)) in Hd. lia.
Qed.

Lemma add_nonneg a b :
  F32.nonneg a = true -> F32.nonneg b = true ->
  F32.nonneg (F32.add a b) = true.
Proof.
  destruct a as [[]|[]| |[] ma ea]; try discriminate;
    destruct b as [[]|[]| |[] mb eb]; try discriminate; intros _ _;
    try reflexivity.
  unfold F32.add, SFadd. cbn [cond_Zopp].
  rewrite <- Pos2Z.inj_add. cbn [binary_normalize].
  generalize (fst (shl_align ma ea (Z.min ea eb)) +
              fst (shl_align mb eb (Z.min ea eb)))%positive.
  intros mm. unfold binary_round.
  match goal with |- context [shl_align mm ?a ?b] =>
    destruct (shl_align mm a b) as [mz ez] end.
  destruct (binary_round_aux_spec false (Z.pos mz) ez loc_Exact)
    as (m3 & e3 & Hm3 & -> & _); [lia|].
  destruct m3 as [|m'|m']; [reflexivity| |lia].
  destruct (e3 <=? 104); reflexivity.
Qed.

Lemma add_infinity_l b :
  F32.nonneg b = true ->
  F32.add (S754_infinity false) b = S754_infinity false.
Proof. destruct b as [[]|[]| |[] mb eb]; try discriminate; reflexivity. Qed.

Lemma add_infinity_r a :
  F32.nonneg a = true ->
  F32.add a (S754_infinity false) = S754_infinity false.
Proof. destruct a as [[]|[]| |[] ma ea]; try discriminate; reflexivity. Qed.

Lemma foldl_add_nonneg (acc : spec_float) (v : list spec_float) :
  F32.nonneg acc = true -> Forall (fun a => F32.nonneg a = true) v ->
  F32.nonneg (foldl F32.add acc v) = true.
Proof.
  intros Ha Hv; revert acc Ha; induction Hv as [|a v Hn _ IH]; intros acc Ha;
    [exact Ha|].
  cbn [foldl]. apply IH, add_nonneg; assumption.
Qed.

Lemma foldl_add_infinity (v : list spec_float) :
  Forall (fun a => F32.nonneg a = true) v ->
  foldl F32.add (S754_infinity false) v = S754_infinity false.
Proof.
  induction 1 as [|a v Hn _ IH]; [reflexivity|].
  cbn [foldl]. rewrite (add_infinity_l a Hn). exact IH.
Qed.

Lemma foldl_add_squares (acc : spec_float) (x : list spec_float) :
  F32.nonneg acc = true -> Forall (fun a => F32.is_finite a = true) x ->
  foldl F32.add acc (map (fun a => F32.mul a a) x) = S754_infinity false \/
  Forall (fun a => F32.large a = false) x.
Proof.
  intros Ha Hx; revert acc Ha; induction Hx as [|a x Hf Hx IH]; intros acc Ha;
    [right; constructor|].
  cbn [map foldl].
  pose proof (mul_self_nonneg a Hf) as Hsq.
  destruct (F32.large a) eqn:Hl.
  - left. rewrite (mul_self_large a Hl), (add_infinity_r acc Ha).
    apply foldl_add_infinity, Forall_map.
    eapply Forall_impl; [exact Hx|]. apply mul_self_nonneg.
  - destruct (IH (F32.add acc (F32.mul a a))) as [Hinf|Hsmall].
    + apply add_nonneg; assumption.
    + left. exact Hinf.
    + right. constructor; assumption.
Qed.

(** The sum of the squares of a row of finite values is [+inf] when an
    entry is large, and is not negative and not NaN in any case. *)
Lemma square_sum_cases (x : list spec_float) :
  Forall (fun a => F32.is_finite a = true) x ->
  let square_sum := F32.sum (map (fun a => F32.mul a a) x) in
  F32.nonneg square_sum = true /\
  (square_sum = S754_infinity false \/
   Forall (fun a => F32.large a = false) x).
Proof.
  intros Hx. cbn zeta. unfold F32.sum. split.
  - apply foldl_add_nonneg; [reflexivity|]. apply Forall_map.
    eapply Forall_impl; [exact Hx|]. apply mul_self_nonneg.
  - apply foldl_add_squares; [reflexivity|exact Hx].
Qed.

(** *** The divisor of a row *)

Lemma maximum_epsilon a :
  F32.nonneg a = true ->
  F32.maximum a F32.epsilon = S754_infinity false \/
  exists m e, F32.maximum a F32.epsilon = S754_finite false m e /\ -63 <= e.
Proof.
  destruct a as [[]|[]| |[] m e]; try discriminate; intros _.
  - right. do 2 eexists. split; [reflexivity|lia].
  - left. reflexivity.
  - right. unfold F32.maximum, F32.epsilon, SFcompare.
    destruct (Z.compare_spec e (-63)) as [->|Hlt|Hgt].
    + destruct (Pos.compare_cont Eq m 9223372);
        do 2 eexists; (split; [reflexivity|lia]).
    + do 2 eexists. split; [reflexivity|lia].
    + do 2 eexists. split; [reflexivity|lia].
Qed.

Lemma sqrt_finite m e :
  -63 <= e ->
  F32.sqrt (S754_finite false m e) = S754_infinity false \/
  exists m' e',
    F32.sqrt (S754_finite false m e) = S754_finite false m' e' /\ -55 <= e'.
Proof.
  intros He. unfold F32.sqrt, SFsqrt, SFsqrt_core_binary.
  rewrite fexp_eq.
  set (d := Zdigits2 (Z.pos m)).
  assert (Hd : 0 < d) by (apply Zdigits2_pos; lia).
  set (e' := Z.min _ _).
  assert (He' : -55 <= e' /\ 2 * e' <= e).
  { subst e'. rewrite !Z.div2_div.
    pose proof (Z.div_mod e 2 ltac:(lia)).
    pose proof (Z.mod_pos_bound e 2 ltac:(lia)).
    pose proof (Z.div_mod (d + e + 1) 2 ltac:(lia)).
    pose proof (Z.mod_pos_bound (d + e + 1) 2 ltac:(lia)).
    lia. }
  set (s := e - 2 * e').
  set (m' := match s with Z.pos _ => Z.shiftl (Z.pos m) s | Z0 => Z.pos m
                        | Z.neg _ => 0 end).
  assert (Hm' : 0 < m').
  { subst m'. destruct s eqn:Hs; try lia.
    rewrite Z.shiftl_mul_pow2 by lia. apply Z.mul_pos_pos; [lia|].
    apply Z.pow_pos_nonneg; lia. }
  pose proof (Z.sqrtrem_sqrt m') as Hq.
  destruct (Z.sqrtrem m') as [q r]. cbn [fst] in Hq.
  assert (0 < q) by (rewrite Hq; apply Z.sqrt_pos; exact Hm').
  match goal with
  | |- context [binary_round_aux _ _ _ q e' ?l] =>
      destruct (binary_round_aux_positive false q e' l)
        as [->|(m3 & e3 & -> & He3)]; try lia; [left; reflexivity|]
  end.
  right. do 2 eexists. split; [reflexivity|lia].
Qed.

(** The divisor of a row of finite values is [+inf] when an entry is large;
    otherwise it is [+inf] or a positive finite value. *)
Lemma x_inv_norm_cases (x : list spec_float) :
  Forall (fun a => F32.is_finite a = true) x ->
  let x_inv_norm :=
    F32.sqrt (F32.maximum (F32.sum (map (fun a => F32.mul a a) x))
                F32.epsilon) in
  x_inv_norm = S754_infinity false \/
  (Forall (fun a => F32.large a = false) x /\
   exists m e, x_inv_norm = S754_finite false m e /\ -55 <= e).
Proof.
  intros Hx. destruct (square_sum_cases x Hx) as [Hn [Hinf|Hsmall]]; cbn zeta.
  { left. rewrite Hinf. reflexivity. }
  destruct (maximum_epsilon _ Hn) as [->|(m & e & -> & He)];
    [left; reflexivity|].
  destruct (sqrt_finite m e He) as [->|Hf]; [left; reflexivity|].
  right. split; assumption.
Qed.

Lemma div_finite a m e :
  F32.is_finite a = true -> F32.large a = false -> -55 <= e ->
  F32.is_finite (F32.div a (S754_finite false m e)) = true.
Proof.
  destruct a as [s|s| |s ma ea]; try discriminate; intros _ Hl He;
    [reflexivity|].
  cbn [F32.large] in Hl. apply Z.leb_gt in Hl.
  unfold F32.div, SFdiv, SFdiv_core_binary. rewrite fexp_eq.
  set (d1 := Zdigits2 (Z.pos ma)) in *. set (d2 := Zdigits2 (Z.pos m)).
  assert (Hd1 : 0 < d1) by (apply Zdigits2_pos; lia).
  assert (Hd2 : 0 < d2) by (apply Zdigits2_pos; lia).
  set (e' := Z.min _ _).
  assert (He' : e' <= ea - e /\ e' <= 104) by (subst e'; lia).
  set (s' := ea - e - e').
  set (m' := match s' with Z.pos _ => Z.shiftl (Z.pos ma) s' | Z0 => Z.pos ma
                         | Z.neg _ => 0 end).
  assert (Hm' : 0 < m' /\ Zdigits2 m' = d1 + s').
  { subst m'. destruct s' eqn:Hs; [fold d1; lia| |lia].
    rewrite Zdigits2_shiftl by lia. fold d1. split; [|reflexivity].
    rewrite Z.shiftl_mul_pow2 by lia. apply Z.mul_pos_pos; [lia|].
    apply Z.pow_pos_nonneg; lia. }
  destruct Hm' as [Hm' Hdm'].
  pose proof (Z.div_eucl_eq m' (Z.pos m) ltac:(lia)) as Hq.
  pose proof (Z.mod_pos_bound m' (Z.pos m) ltac:(lia)) as Hr.
  unfold Z.modulo in Hr.
  destruct (Z.div_eucl m' (Z.pos m)) as [q r].
  assert (Hq0 : 0 <= q <= m') by nia.
  pose proof (Zdigits2_le q m' Hq0) as Hdq.
  apply binary_round_aux_finite; lia.
Qed.

Lemma div_infinity a :
  F32.is_finite a = true ->
  F32.is_zero (F32.div a (S754_infinity false)) = true.
Proof. destruct a; try discriminate; reflexivity. Qed.

Lemma is_zero_finite a : F32.is_zero a = true -> F32.is_finite a = true.
Proof. destruct a; try discriminate; reflexivity. Qed.

Lemma l2_normalize_row_binary32_finite (x : list spec_float) :
  Forall (fun a => F32.is_finite a = true) x ->
  Forall (fun a => F32.is_finite a = true) (F32.l2_normalize_row x).
Proof.
  intros Hx. unfold F32.l2_normalize_row.
  destruct (x_inv_norm_cases x Hx) as [->|(Hsmall & m & e & -> & He)];
    apply Forall_map.
  - eapply Forall_impl; [exact Hx|]. intros a Ha.
    apply is_zero_finite, div_infinity, Ha.
  - rewrite Forall_forall in Hx, Hsmall. apply Forall_forall. intros a Ha.
    apply div_finite; auto.
Qed.


(** *** Rows of zeros *)

Lemma div_binary32_zero a d :
  F32.is_zero a = true ->
  d = S754_infinity false \/ (exists m e, d = S754_finite false m e) ->
  F32.div a d = a.
Proof.
  destruct a as [[]| | |]; try discriminate; intros _ [->|(m & e & ->)];
    reflexivity.
Qed.

Lemma l2_normalize_row_binary32_zeros (x : list spec_float) :
  F32.zeros x -> F32.l2_normalize_row x = x.
Proof.
  intros Hz.
  assert (Hx : Forall (fun a => F32.is_finite a = true) x)
    by (eapply Forall_impl; [exact Hz|]; apply is_zero_finite).
  unfold F32.l2_normalize_row.
  pose proof (x_inv_norm_cases x Hx) as Hd. cbn zeta in Hd.
  set (d := F32.sqrt _) in *.
  assert (Hd' : d = S754_infinity false \/
                exists m e, d = S754_finite false m e).
  { destruct Hd as [->|(_ & m & e & -> & _)]; eauto. }
  clearbody d. clear Hd Hx. induction Hz as [|a x Ha _ IH]; [reflexivity|].
  cbn [map]. rewrite IH, (div_binary32_zero a d Ha Hd'). reflexivity.
Qed.

Lemma mul_binary32_comm a b : F32.mul a b = F32.mul b a.
Proof.
  destruct a as [sa|sa| |sa ma ea], b as [sb|sb| |sb mb eb]; cbn;
    try rewrite (xorb_comm sa sb); try reflexivity.
  rewrite (Pos.mul_comm ma mb), (Z.add_comm ea eb). reflexivity.
Qed.









End Binary32.

(** ** Differentiation of the loss *)

Section Differentiation.
Local Open Scope R_scope.

(** Decide a comparison of two reals that [lra] can settle. *)
Ltac Rlt_decide :=
  match goal with
  | |- context [Rlt_dec ?a ?b] =>
      let Hc := fresh "Hc" in
      destruct (Rlt_dec a b) as [Hc|Hc];
      [ try (exfalso; lra) | try (exfalso; apply Hc; lra) ]
  end.

Lemma dual_max_l (a b : dual) : primal b < primal a -> s_max a b = a.
Proof. intros Hlt. cbn. unfold dual_max. Rlt_decide. reflexivity. Qed.

Lemma dual_max_r (a b : dual) : primal a < primal b -> s_max a b = b.
Proof. intros Hlt. cbn. unfold dual_max. do 2 Rlt_decide. reflexivity. Qed.

(** *** Values the derivative does not reach stay so *)

Lemma constant_const r : constant (s_const r).
Proof. reflexivity. Qed.

Lemma constant_stop_gradient a : constant (s_stop_gradient a).
Proof. reflexivity. Qed.

Lemma constant_add a b : constant a -> constant b -> constant (s_add a b).
Proof. unfold constant. cbn. intros -> ->. lra. Qed.

Lemma constant_mul a b : constant a -> constant b -> constant (s_mul a b).
Proof. unfold constant. cbn. intros -> ->. lra. Qed.

Lemma constant_div a b : constant a -> constant b -> constant (s_div a b).
Proof. unfold constant. cbn. intros -> ->. unfold Rdiv. ring. Qed.

Lemma constant_neg a : constant a -> constant (s_neg a).
Proof. unfold constant. cbn. intros ->. lra. Qed.

Lemma constant_sqrt a : constant a -> constant (s_sqrt a).
Proof. unfold constant. cbn. intros ->. unfold Rdiv. ring. Qed.

Lemma constant_max a b : constant a -> constant b -> constant (s_max a b).
Proof.
  unfold constant. cbn. unfold dual_max. intros Ha Hb.
  repeat destruct (Rlt_dec _ _); cbn; try assumption.
  rewrite Ha, Hb. lra.
Qed.

Create HintDb constant.
#[local] Hint Resolve constant_const constant_stop_gradient constant_add
  constant_mul constant_div constant_neg constant_sqrt constant_max
  : constant.

Lemma constant_sum v : Forall constant v -> constant (s_sum v).
Proof. induction 1; cbn [s_sum foldr]; auto with constant. Qed.

Lemma constant_mean v : Forall constant v -> constant (s_mean v).
Proof. intros Hv. unfold s_mean. auto using constant_sum with constant. Qed.

Lemma constant_zip_mul r s :
  Forall constant r -> Forall constant s ->
  Forall constant (zip_with s_mul r s).
Proof.
  intros Hr; revert s; induction Hr; intros s Hs; destruct Hs;
    cbn [zip_with]; constructor; auto with constant.
Qed.

Lemma constant_l2_normalize_row e r :
  Forall constant r -> Forall constant (l2_normalize_row e r).
Proof.
  intros Hr. unfold l2_normalize_row.
  assert (Hn : constant (s_sqrt (s_max (s_sum (map (fun a => s_mul a a) r))
                                       (s_const e)))).
  { apply constant_sqrt, constant_max; [|apply constant_const].
    apply constant_sum.
    induction Hr; cbn [map]; constructor; auto with constant. }
  revert Hn.
  generalize (s_sqrt (s_max (s_sum (map (fun a => s_mul a a) r))
                            (s_const e))).
  intros d Hd.
  induction Hr; cbn [map]; constructor; auto with constant.
Qed.

Lemma constant_array_stop_gradient z :
  Forall (Forall constant) (array_stop_gradient z).
Proof.
  unfold array_stop_gradient.
  induction z as [|r z IH]; cbn [map]; constructor; [|exact IH].
  induction r; cbn [map]; constructor; auto with constant.
Qed.

Lemma constant_ncs p z :
  Forall (Forall constant) p -> Forall (Forall constant) z ->
  constant (negative_cosine_similarity p z).
Proof.
  intros Hp Hz. unfold negative_cosine_similarity, l2_normalize.
  apply constant_neg, constant_mean.
  revert z Hz; induction Hp as [|r p Hr Hp IH]; intros z Hz;
    destruct Hz as [|s z Hs Hz]; cbn [map zip_with]; constructor.
  - apply constant_sum, constant_zip_mul;
      apply constant_l2_normalize_row; assumption.
  - apply IH, Hz.
Qed.

(** Against a detached second argument, the loss has no derivative along
    a direction that does not reach the first argument. *)
Lemma ncs_detached_constant p z :
  Forall (Forall constant) p ->
  tangent (negative_cosine_similarity p (array_stop_gradient z)) = 0.
Proof.
  intros Hp. apply constant_ncs; [exact Hp|].
  apply constant_array_stop_gradient.
Qed.

(** *** The loss at the gate probe *)

Import GateProbe.

Lemma probe_views :
  apply_transform y0 (1 / 2, 2) (1 / 2) draws
    = (y0, {| tape := tape draws; pos := 1 |}) /\
  apply_transform1 y0 (- 5, 5) (1 / 2) {| tape := tape draws; pos := 1 |}
    = ([[Cplx (Dual (-4) 0) (Dual 0 0); Cplx (Dual 3 0) (Dual 0 0)]],
       {| tape := tape draws; pos := 3 |}).
Proof.
  split.
  - unfold apply_transform. cbn. Rlt_decide. reflexivity.
  - unfold apply_transform1. cbn. Rlt_decide. repeat f_equal; lra.
Qed.

Lemma rectify_off theta a i :
  - 7 / 2 < a -> rectify theta (Cplx (Dual a 0) i) = Cplx (Dual a 0) i.
Proof.
  intros Ha. unfold rectify. cbn [re im].
  rewrite dual_max_r by (cbn; lra).
  cbn. repeat f_equal; lra.
Qed.

Lemma rectify_on theta a i :
  a < - 7 / 2 ->
  rectify theta (Cplx (Dual a 0) i)
  = Cplx (Dual (a + primal theta * (- 7 / 2 - a))
               (tangent theta * (- 7 / 2 - a))) i.
Proof.
  intros Ha. unfold rectify. cbn [re im].
  rewrite dual_max_l by (cbn; lra).
  cbn. repeat f_equal; lra.
Qed.

Lemma probe_theta : v_params variables !! ["theta"%string] = Some (Dual 0 1).
Proof.
  unfold variables, dict_merge, params. cbn [v_params].
  rewrite (left_id_L ∅ (∪)). apply lookup_singleton_eq.
Qed.

(** The forward pass of the first view: the gate is closed. *)
Lemma probe_forward_view1 : apply layer variables (mkSignal y0) = (mkSignal y0, tt).
Proof.
  unfold layer. cbn [apply]. rewrite probe_theta. cbn [default].
  unfold mkSignal, y0. cbn [map val t].
  rewrite !rectify_off by lra. reflexivity.
Qed.

(** The forward pass of the second view: the gate is open on the first
    channel, whose output moves with [theta]. *)
Lemma probe_forward_view2 :
  apply layer variables
    (mkSignal [[Cplx (Dual (-4) 0) (Dual 0 0); Cplx (Dual 3 0) (Dual 0 0)]])
  = (mkSignal [[Cplx (Dual (-4) (1 / 2)) (Dual 0 0);
                Cplx (Dual 3 0) (Dual 0 0)]], tt).
Proof.
  unfold layer. cbn [apply]. rewrite probe_theta. cbn [default].
  unfold mkSignal. cbn [map val t].
  rewrite rectify_on, rectify_off by lra.
  cbn. repeat f_equal; lra.
Qed.

Lemma c_abs_real a ta m :
  0 < m -> m * m = a * a ->
  c_abs (Cplx (Dual a ta) (Dual 0 0)) = Dual m (ta * a / m).
Proof.
  intros Hm Ha. unfold c_abs. cbn.
  rewrite (sqrt_val (a * a + 0 * 0) m) by lra.
  f_equal. field. lra.
Qed.

Lemma probe_ncs :
  negative_cosine_similarity
    [[Dual 3 0; Dual 4 0]] [[Dual 4 (- (1 / 2)); Dual 3 0]]
  = Dual (- (24 / 25)) (- (21 / 1250)).
Proof.
  unfold negative_cosine_similarity, l2_normalize. cbn [map].
  unfold l2_normalize_row. cbn [map s_sum foldr].
  assert (He : / 10 ^ 12 < 1) by lra.
  rewrite !dual_max_l by (cbn; lra).
  cbn.
  rewrite (sqrt_val (3 * 3 + (4 * 4 + 0)) 5) by lra.
  rewrite (sqrt_val (4 * 4 + (3 * 3 + 0)) 5) by lra.
  f_equal; field.
Qed.

Lemma probe_loss : loss = Dual (- (24 / 25)) (- (21 / 1250)).
Proof.
  unfold loss, loss_fn.
  destruct probe_views as [-> ->].
  fold variables.
  rewrite probe_forward_view1, probe_forward_view2.
  unfold mkSignal, y0. cbn [val array_abs map fst].
  rewrite (c_abs_real (-3) 0 3), (c_abs_real 4 0 4),
    (c_abs_real (-4) (1 / 2) 4), (c_abs_real 3 0 3) by lra.
  rewrite <- probe_ncs. cbn [fst]. f_equal; repeat f_equal; lra.
Qed.

(** C1 does not hold of the code: [loss_fn] computes the detached
    magnitude of the second view and then passes the magnitude that is not
    detached to [negative_cosine_similarity].  At the gate probe the
    parameter [theta] moves the output of the second view only (the
    magnitudes of the first view are constant), and the derivative of the
    loss with respect to [theta] is [-21/1250], not zero. *)
Theorem loss_fn_second_view_gradient :
  Forall (Forall constant)
    (array_abs (val (apply layer variables (mkSignal y_transformed)).1)) /\
  tangent loss = - (21 / 1250) /\
  tangent loss <> 0.
Proof.
  split; [|rewrite probe_loss; cbn; split; lra].
  unfold y_transformed. destruct probe_views as [-> _]. cbn [fst].
  rewrite probe_forward_view1. unfold mkSignal, y0.
  cbn [val array_abs map fst].
  rewrite (c_abs_real (-3) 0 3), (c_abs_real 4 0 4) by lra.
  repeat constructor; unfold constant; cbn; lra.
Qed.

End Differentiation.

(** ** Batch windowing *)

Section Windowing.
Local Open Scope Z_scope.

Lemma slice_inside {A} (l : list A) (a b : Z) :
  0 <= a -> a <= b -> b <= PySeq.len l ->
  PySeq.slice l a b = window l a (b - a).
Proof.
  intros Ha Hab Hb. unfold PySeq.slice, PySeq.clamp, window.
  destruct (Z.ltb_spec a 0), (Z.ltb_spec b 0); try lia.
  rewrite !Z.min_l by lia. reflexivity.
Qed.

(** [l[a:b]] for a start [a] inside [l] and a stop [b] counted from the
    end: [a] elements are dropped at the front and [-b] at the back. *)
Lemma slice_negative_stop {A} (l : list A) (a b : Z) :
  0 <= a -> b < 0 -> a <= PySeq.len l + b ->
  PySeq.slice l a b = window l a (PySeq.len l + b - a).
Proof.
  intros Ha Hb Hab. unfold PySeq.slice, PySeq.clamp, window.
  destruct (Z.ltb_spec a 0), (Z.ltb_spec b 0); try lia.
  rewrite Z.min_l, Z.max_r by lia.
  do 2 f_equal. lia.
Qed.

Lemma window_length {A} (l : list A) (a n : Z) :
  0 <= a -> 0 <= n -> a + n <= PySeq.len l -> PySeq.len (window l a n) = n.
Proof.
  intros Ha Hn Hl. unfold window, PySeq.len in *.
  rewrite length_take, length_drop. lia.
Qed.

(** The last [o] elements of a window of length [n + o] are the first [o]
    elements of the window that starts [n] later. *)
Lemma window_overlap {A} (l : list A) (a n o : Z) :
  0 <= a -> 0 <= n -> 0 <= o ->
  drop (Z.to_nat n) (window l a (n + o))
  = take (Z.to_nat o) (window l (a + n) (n + o)).
Proof.
  intros Ha Hn Ho. unfold window.
  rewrite take_take, Nat.min_l by lia.
  rewrite !Z2Nat.inj_add by lia.
  rewrite <- take_drop_commute, drop_drop. reflexivity.
Qed.

Lemma frame_shape_count (n flen fstep : Z) :
  0 < fstep ->
  frame_shape n flen fstep = Ok (Z.max 0 ((n - flen + fstep) / fstep)).
Proof.
  intros Hs. unfold frame_shape.
  destruct (Z.eqb_spec fstep 0); [lia|].
  do 2 f_equal.
  replace (n - flen + fstep) with (n - flen + 1 * fstep) by ring.
  rewrite Z.div_add by lia. ring.
Qed.

Lemma frame_gen_lookup {A} (x : list A) (flen fstep : Z) frames (i : Z) :
  frame_gen x flen fstep = Ok frames ->
  0 < fstep -> 0 <= i < PySeq.len frames ->
  frames !! Z.to_nat i
  = Some (PySeq.slice x (i * fstep) (i * fstep + flen)).
Proof.
  unfold frame_gen. intros Hf Hs Hi.
  rewrite frame_shape_count in Hf by assumption. cbn in Hf.
  injection Hf as <-.
  unfold PySeq.len in Hi. rewrite length_fmap, length_seqZ in Hi.
  rewrite list_lookup_fmap.
  rewrite (lookup_seqZ_lt _ _ (Z.to_nat i)) by (unfold PySeq.len; lia).
  cbn. rewrite Z2Nat.id by lia. reflexivity.
Qed.

Lemma frame_gen_ok {A} (x : list A) (flen fstep : Z) :
  0 < fstep ->
  exists frames, frame_gen x flen fstep = Ok frames /\
    PySeq.len frames = Z.max 0 ((PySeq.len x - flen + fstep) / fstep).
Proof.
  intros Hs. unfold frame_gen. rewrite frame_shape_count by assumption.
  eexists; split; [reflexivity|].
  unfold PySeq.len. rewrite length_fmap, length_seqZ. lia.
Qed.

Lemma frame_gen_short {A} (x : list A) (flen fstep : Z) :
  0 < fstep -> PySeq.len x < flen -> frame_gen x flen fstep = Ok [].
Proof.
  intros Hs Hx. unfold frame_gen. rewrite frame_shape_count by assumption.
  cbn. rewrite Z.max_l; [reflexivity|].
  enough ((PySeq.len x - flen + fstep) / fstep < 1) by lia.
  apply Z.div_lt_upper_bound; lia.
Qed.

Lemma window_count (L B O : Z) :
  0 < B -> O <= L -> Z.max 0 ((L - (B + O) + B) / B) = (L - O) / B.
Proof.
  intros HB HO. replace (L - (B + O) + B) with (L - O) by ring.
  apply Z.max_r. apply Z.div_pos; lia.
Qed.

Lemma window_count_sps (L B O sps : Z) :
  0 < B -> 0 < sps -> O <= L ->
  Z.max 0 ((L * sps - (B + O) * sps + B * sps) / (B * sps)) = (L - O) / B.
Proof.
  intros HB Hsps HO.
  replace (L * sps - (B + O) * sps + B * sps) with ((L - O) * sps) by ring.
  rewrite Z.div_mul_cancel_r by lia.
  apply Z.max_r. apply Z.div_pos; lia.
Qed.

Lemma window_fits (L B O i : Z) :
  0 < B -> 0 <= i < (L - O) / B -> i * B + (B + O) <= L.
Proof.
  intros HB Hi.
  pose proof (Z.mul_div_le (L - O) B HB). nia.
Qed.
End Windowing.

(** ** Construction *)

Section Construction.
Context {InitFn : Type}.
Local Open Scope Z_scope.
Implicit Types (steps dtaps ntaps rtaps : Z) (init_fn : InitFn * InitFn).

Lemma py_mod_2 (a : Z) : py_mod a 2 = Ok (a mod 2).
Proof. reflexivity. Qed.

Lemma even_mod_2 (a : Z) : Z.even a = true -> a mod 2 = 0.
Proof.
  intros He. rewrite Zmod_even, He. reflexivity.
Qed.

Lemma odd_mod_2 (a : Z) : Z.even a = false -> a mod 2 = 1.
Proof.
  intros He. rewrite Zmod_even, He. reflexivity.
Qed.

Lemma assert_taps_odd dtaps ntaps rtaps :
  Z.even dtaps = false -> Z.even ntaps = false -> Z.even rtaps = false ->
  _assert_taps dtaps ntaps rtaps 2 = Ok tt.
Proof.
  intros Hd Hn Hr. unfold _assert_taps. rewrite !py_mod_2. cbn.
  rewrite (odd_mod_2 _ Hd), (odd_mod_2 _ Hn), (odd_mod_2 _ Hr).
  reflexivity.
Qed.

(** The first even tap count, in the order the assertions are made, and
    the message of its assertion. *)
Lemma assert_taps_even dtaps ntaps rtaps :
  Z.even dtaps = true \/ Z.even ntaps = true \/ Z.even rtaps = true ->
  exists which n,
    _assert_taps dtaps ntaps rtaps 2
    = Raise (AssertionError
               (which +:+ " must be odd number, got " +:+ pretty n
                +:+ " instead")) /\
    ((which = "dtaps" /\ n = dtaps) \/ (which = "ntaps" /\ n = ntaps) \/
     (which = "rtaps" /\ n = rtaps)) /\
    Z.even n = true.
Proof.
  intros Hev. unfold _assert_taps. rewrite !py_mod_2. cbn.
  destruct (Z.even dtaps) eqn:Hd.
  { exists "dtaps"%string, dtaps. rewrite (even_mod_2 _ Hd). cbn. auto. }
  rewrite (odd_mod_2 _ Hd). cbn.
  destruct (Z.even ntaps) eqn:Hn.
  { exists "ntaps"%string, ntaps. rewrite (even_mod_2 _ Hn). cbn. auto 6. }
  rewrite (odd_mod_2 _ Hn). cbn.
  destruct (Z.even rtaps) eqn:Hr.
  { exists "rtaps"%string, rtaps. rewrite (even_mod_2 _ Hr). cbn. auto 6. }
  destruct Hev as [?|[?|?]]; discriminate.
Qed.

Lemma make_base_module_even steps dtaps ntaps rtaps init_fn w0 mode :
  Z.even dtaps = true \/ Z.even ntaps = true \/ Z.even rtaps = true ->
  exists msg,
    make_base_module steps dtaps ntaps rtaps init_fn w0 mode
    = Raise (AssertionError msg).
Proof.
  intros Hev.
  destruct (assert_taps_even dtaps ntaps rtaps Hev) as (w & n & Ha & _).
  unfold make_base_module. rewrite Ha. cbn. eauto.
Qed.

Lemma make_base_module_mode steps dtaps ntaps rtaps init_fn w0 mode :
  mode <> "train"%string -> mode <> "test"%string ->
  exists e,
    make_base_module steps dtaps ntaps rtaps init_fn w0 mode = Raise e /\
    (Z.even dtaps = false -> Z.even ntaps = false ->
     Z.even rtaps = false -> e = ValueError ("invalid mode " +:+ mode)).
Proof.
  intros Htrain Htest.
  destruct (Z.even dtaps) eqn:Hd;
    [|destruct (Z.even ntaps) eqn:Hn; [|destruct (Z.even rtaps) eqn:Hr]].
  1-3: destruct (make_base_module_even steps dtaps ntaps rtaps init_fn
                   w0 mode) as [msg Hm];
       [rewrite ?Hd, ?Hn, ?Hr; auto|];
       exists (AssertionError msg); split; [exact Hm|]; discriminate.
  exists (ValueError ("invalid mode " +:+ mode)). split; [|reflexivity].
  unfold make_base_module.
  rewrite (assert_taps_odd _ _ _ Hd Hn Hr). cbn.
  destruct init_fn as [d_init n_init].
  destruct (String.eqb_spec mode "train"); [contradiction|].
  destruct (String.eqb_spec mode "test"); [contradiction|].
  reflexivity.
Qed.
End Construction.

(** ** The model, the loss, the training loop and the evaluation *)

Section ModelProperties.
Context {T : Type} `{Scalar T}.
Context {Tensor State Const Sym OptState Metric InitFn : Type}.
Context `{!@Backend T Tensor State Const Sym InitFn}.
Local Open Scope Z_scope.
Implicit Types (model : @Model T Tensor State Const Sym)
  (optimizer : @GradientTransformation Tensor OptState)
  (data ds : @Input T Sym)
  (l : @Locals Tensor State Const Sym OptState)
  (base_conf : BaseConf InitFn)
  (params sparams : gmap (list string) Tensor)
  (aux : gmap (list string) (list Sym))
  (st : RandomState).

(** *** Construction and initialization *)

Lemma model_init_raise data base_conf sparams_flatkeys (n_symbols sps : Z)
    name e :
  make_base_module (conf_steps base_conf) (conf_dtaps base_conf)
    (conf_ntaps base_conf) (conf_rtaps base_conf) (conf_init_fn base_conf)
    (w0 data) (conf_mode base_conf) = Raise e ->
  model_init data base_conf sparams_flatkeys n_symbols sps name = Raise e.
Proof. intros Hm. unfold model_init. rewrite Hm. reflexivity. Qed.

Lemma model_init_ok data base_conf sparams_flatkeys (n_symbols sps : Z)
    name model :
  model_init data base_conf sparams_flatkeys n_symbols sps name = Ok model ->
  let iv := init (module model) 0
              (mkSignal (PySeq.slice_to (y data) (n_symbols * sps))) in
  overlaps model = start (t iv.1) - stop (t iv.1) /\
  initvar model
  = ((dict_split (iv_params iv.2) sparams_flatkeys).2,
     iv_af_state iv.2, iv_aux_inputs iv.2, iv_const iv.2,
     (dict_split (iv_params iv.2) sparams_flatkeys).1).
Proof.
  unfold model_init.
  destruct (make_base_module _ _ _ _ _ _ _) as [spec|e]; [|discriminate].
  cbn. destruct (init (realize spec) 0 _) as [z0 v0] eqn:Hi.
  intros [= <-]. cbn. rewrite Hi. auto.
Qed.

(** C7: configuration errors are raised by the construction of the module,
    which is the first thing [model_init] does.  A mode other than
    ['train'] and ['test'] makes [make_base_module] raise (a [ValueError]
    naming the mode when the tap counts are odd), an even tap count makes
    it raise an [AssertionError] that names the tap count and its value,
    and in both cases [model_init] raises the same error and returns no
    model. *)
Theorem configuration_errors_eager data base_conf sparams_flatkeys
    (n_symbols sps : Z) name :
  let built :=
    make_base_module (conf_steps base_conf) (conf_dtaps base_conf)
      (conf_ntaps base_conf) (conf_rtaps base_conf)
      (conf_init_fn base_conf) (w0 data) (conf_mode base_conf) in
  let model :=
    model_init data base_conf sparams_flatkeys n_symbols sps name in
  (conf_mode base_conf <> "train"%string ->
   conf_mode base_conf <> "test"%string ->
   exists e, built = Raise e /\ model = Raise e /\
     (Z.even (conf_dtaps base_conf) = false ->
      Z.even (conf_ntaps base_conf) = false ->
      Z.even (conf_rtaps base_conf) = false ->
      e = ValueError ("invalid mode " +:+ conf_mode base_conf))) /\
  (Z.even (conf_dtaps base_conf) = true \/
   Z.even (conf_ntaps base_conf) = true \/
   Z.even (conf_rtaps base_conf) = true ->
   exists which n,
     let e := AssertionError
                (which +:+ " must be odd number, got " +:+ pretty n
                 +:+ " instead") in
     built = Raise e /\ model = Raise e /\
     ((which = "dtaps"%string /\ n = conf_dtaps base_conf) \/
      (which = "ntaps"%string /\ n = conf_ntaps base_conf) \/
      (which = "rtaps"%string /\ n = conf_rtaps base_conf)) /\
     Z.even n = true).
Proof.
  cbn zeta. split.
  - intros Htrain Htest.
    destruct (make_base_module_mode (conf_steps base_conf)
                (conf_dtaps base_conf) (conf_ntaps base_conf)
                (conf_rtaps base_conf) (conf_init_fn base_conf) (w0 data)
                (conf_mode base_conf) Htrain Htest) as (e & He & Hv).
    exists e. auto using model_init_raise.
  - intros Hev.
    destruct (assert_taps_even _ _ _ Hev) as (which & n & Ha & Hw & Hn).
    exists which, n.
    assert (Hb : make_base_module (conf_steps base_conf)
                   (conf_dtaps base_conf) (conf_ntaps base_conf)
                   (conf_rtaps base_conf) (conf_init_fn base_conf)
                   (w0 data) (conf_mode base_conf)
                 = Raise (AssertionError
                            (which +:+ " must be odd number, got "
                             +:+ pretty n +:+ " instead"))).
    { unfold make_base_module. rewrite Ha. reflexivity. }
    auto using model_init_raise.
Qed.

(** C8: the overlap [model_init] stores is [start - stop] of the validity
    window of the output of the reference forward pass; the stop is an
    offset from the end, so not positive, and the start is not negative,
    which makes it the absolute value of the difference.  [train] hands
    this stored value to [get_train_batch]. *)
Theorem model_init_overlaps data base_conf sparams_flatkeys
    (n_symbols sps : Z) name model :
  model_init data base_conf sparams_flatkeys n_symbols sps name = Ok model ->
  let z0 := (init (module model) 0
               (mkSignal (PySeq.slice_to (y data) (n_symbols * sps)))).1 in
  stop (t z0) <= 0 <= start (t z0) ->
  overlaps model = Z.abs (start (t z0) - stop (t z0)) /\
  forall data' (batch_size : Z) n_iter optimizer st,
    train model data' batch_size n_iter optimizer st
    = (batches ← get_train_batch data' batch_size
                   (Z.abs (start (t z0) - stop (t z0))) 2;
       Ok (map progress (train_on model n_iter optimizer st batches))).
Proof.
  intros Hinit z0 Hwin.
  destruct (model_init_ok _ _ _ _ _ _ _ Hinit) as [Hol _].
  fold z0 in Hol.
  assert (Habs : overlaps model = Z.abs (start (t z0) - stop (t z0)))
    by lia.
  split; [exact Habs|].
  intros data' batch_size n_iter optimizer st.
  unfold train, train_trace. rewrite Habs.
  destruct (get_train_batch _ _ _ _); reflexivity.
Qed.

(** *** The loss *)

(** C2: [loss_fn] applies the module to the original batch and to the two
    augmented views with one and the same bundle of variables, which holds
    the incoming state; the loss is computed from the outputs of the two
    augmented passes and the state returned is that of the pass on the
    original batch.  Whatever state the module returns on other inputs,
    the result is the same. *)
Theorem loss_fn_state (module : @Layer T Tensor State Const Sym) params
    (state : State) (y : list (list (complex T))) (x : list Sym) aux
    (const : Const) sparams st :
  let variables :=
    {| v_params := dict_merge params sparams; v_aux_inputs := aux;
       v_const := const; v_state := state |} in
  let view := apply_transform y (1 / 2, 2)%R (1 / 2)%R st in
  let view1 := apply_transform1 y (- 5, 5)%R (1 / 2)%R view.2 in
  loss_fn module params state y x aux const sparams st
  = ((negative_cosine_similarity
        (array_abs (val (apply module variables (mkSignal view.1)).1))
        (array_abs (val (apply module variables (mkSignal view1.1)).1)),
      (apply module variables (mkSignal y)).2),
     view1.2)
  /\
  forall module' : @Layer T Tensor State Const Sym,
    (forall v s, (apply module' v s).1 = (apply module v s).1) ->
    (apply module' variables (mkSignal y)).2
    = (apply module variables (mkSignal y)).2 ->
    loss_fn module' params state y x aux const sparams st
    = loss_fn module params state y x aux const sparams st.
Proof.
  intros variables view view1.
  assert (Heq : forall m : @Layer T Tensor State Const Sym,
    loss_fn m params state y x aux const sparams st
    = ((negative_cosine_similarity
          (array_abs (val (apply m variables (mkSignal view.1)).1))
          (array_abs (val (apply m variables (mkSignal view1.1)).1)),
        (apply m variables (mkSignal y)).2),
       view1.2)).
  { intros m. unfold loss_fn. subst view1 view variables.
    destruct (apply_transform y _ _ st) as [yt st1]. cbn [fst snd].
    destruct (apply_transform1 y _ _ st1) as [yt1 st2]. cbn [fst snd].
    destruct (apply m _ (mkSignal y)) as [z0 s0].
    destruct (apply m _ (mkSignal yt)) as [z1 s1].
    destruct (apply m _ (mkSignal yt1)) as [z2 s2].
    reflexivity. }
  split; [apply Heq|].
  intros module' Hout Hstate. rewrite !Heq, !Hout, Hstate. reflexivity.
Qed.

(** *** Batches *)

Lemma get_train_batch_ok ds (B O sps : Z) :
  0 < B -> 0 <= O <= PySeq.len (x ds) -> 0 < sps ->
  PySeq.len (y ds) = PySeq.len (x ds) * sps ->
  exists batch_gen,
    get_train_batch ds B O sps
    = Ok ((PySeq.len (x ds) - O) / B, batch_gen) /\
    PySeq.len batch_gen = (PySeq.len (x ds) - O) / B /\
    forall i, 0 <= i < (PySeq.len (x ds) - O) / B ->
      batch_gen !! Z.to_nat i =
        Some (window (y ds) (i * (B * sps)) ((B + O) * sps),
              window (x ds) (i * B) (B + O)).
Proof.
  intros HB HO Hsps Hy. unfold get_train_batch.
  assert (HBs : 0 < B * sps) by lia.
  destruct (frame_gen_ok (y ds) ((B + O) * sps) (B * sps) HBs)
    as (fy & Hfy & Hly).
  destruct (frame_gen_ok (x ds) (B + O) B HB) as (fx & Hfx & Hlx).
  rewrite Hy, window_count_sps in Hly by lia.
  rewrite window_count in Hlx by lia.
  rewrite Hfy, Hfx. cbn.
  rewrite frame_shape_count, window_count by lia. cbn.
  eexists; split; [reflexivity|]. split.
  - unfold PySeq.len in *. rewrite length_zip. lia.
  - intros i Hi.
    rewrite lookup_zip_with.
    rewrite (frame_gen_lookup _ _ _ _ i Hfy) by lia.
    rewrite (frame_gen_lookup _ _ _ _ i Hfx) by lia. cbn.
    pose proof (window_fits _ _ _ _ HB Hi) as Hfit.
    rewrite !slice_inside by nia.
    do 3 f_equal; lia.
Qed.

Lemma get_train_batch_total data (B O : Z) :
  0 < B ->
  exists n_batch batch_gen,
    get_train_batch data B O 2 = Ok (n_batch, batch_gen) /\
    PySeq.len batch_gen <= n_batch /\
    (PySeq.len (x data) < O + B -> batch_gen = []).
Proof.
  intros HB. unfold get_train_batch.
  destruct (frame_gen_ok (y data) ((B + O) * 2) (B * 2))
    as (fy & Hfy & Hly); [lia|].
  destruct (frame_gen_ok (x data) (B + O) B HB) as (fx & Hfx & Hlx).
  rewrite Hfy. cbn. rewrite frame_shape_count by assumption.
  rewrite Hfx. cbn.
  eexists _, _; split; [reflexivity|]. split.
  - unfold PySeq.len in *. rewrite length_zip. lia.
  - intros Hshort. rewrite frame_gen_short in Hfx by lia.
    injection Hfx as <-. apply zip_with_nil_r.
Qed.

(** C3: for a target sequence of [L] symbols, an input sequence of
    [L * sps] samples, a batch size [B > 0], an overlap [0 <= O <= L] and
    [sps > 0], [get_train_batch] announces and produces
    [floor((L - O) / B)] batches; batch [i] is the window of
    [(B + O) * sps] input samples from [i * B * sps] on, paired with the
    window of [B + O] target symbols from [i * B] on, so the last [O]
    symbols ([O * sps] samples) of a batch are the first of the next. *)
Theorem get_train_batch_windows ds (B O sps : Z) :
  0 < B -> 0 <= O <= PySeq.len (x ds) -> 0 < sps ->
  PySeq.len (y ds) = PySeq.len (x ds) * sps ->
  let n := (PySeq.len (x ds) - O) / B in
  exists batch_gen,
    get_train_batch ds B O sps = Ok (n, batch_gen) /\
    PySeq.len batch_gen = n /\
    forall i, 0 <= i < n ->
      exists wy wx,
        batch_gen !! Z.to_nat i = Some (wy, wx) /\
        wy = window (y ds) (i * (B * sps)) ((B + O) * sps) /\
        wx = window (x ds) (i * B) (B + O) /\
        PySeq.len wy = (B + O) * sps /\
        PySeq.len wx = B + O /\
        (i + 1 < n ->
         exists wy' wx',
           batch_gen !! Z.to_nat (i + 1) = Some (wy', wx') /\
           drop (Z.to_nat (B * sps)) wy = take (Z.to_nat (O * sps)) wy' /\
           drop (Z.to_nat B) wx = take (Z.to_nat O) wx').
Proof.
  intros HB HO Hsps Hy n.
  destruct (get_train_batch_ok ds B O sps HB HO Hsps Hy)
    as (batch_gen & Hg & Hlen & Hwin).
  exists batch_gen. split; [exact Hg|]. split; [exact Hlen|].
  intros i Hi. eexists _, _. split; [apply Hwin, Hi|].
  pose proof (window_fits _ _ _ _ HB Hi) as Hfit.
  split; [reflexivity|]. split; [reflexivity|].
  split; [apply window_length; nia|]. split; [apply window_length; lia|].
  intros Hi'. eexists _, _. split; [apply Hwin; lia|]. split.
  - replace ((B + O) * sps) with (B * sps + O * sps) by ring.
    replace ((i + 1) * (B * sps)) with (i * (B * sps) + B * sps) by ring.
    apply window_overlap; nia.
  - replace ((i + 1) * B) with (i * B + B) by ring.
    apply window_overlap; lia.
Qed.

(** *** The training loop *)

Lemma train_loop_length model optimizer (n_iter i : Z) batch_gen l :
  length (train_loop model optimizer n_iter i batch_gen l)
  = Nat.min (Z.to_nat (n_iter - i)) (length batch_gen).
Proof.
  revert i l; induction batch_gen as [|batch batch_gen IH]; intros i l.
  - cbn. lia.
  - cbn [train_loop]. destruct (Z.leb_spec n_iter i).
    + cbn. lia.
    + destruct (train_body model optimizer l batch) as [loss l'].
      cbn [length]. rewrite IH. lia.
Qed.

(** C4: for a batch size [B > 0] and a requested count [n_iter >= 0],
    [train] raises no error and yields [min(n_iter, available)] tuples
    [(loss, params, module_state)], where [available] is the number of
    batches [get_train_batch] produces, and [available] tuples when
    [n_iter] is [None]; that number is [floor((L - O) / B)] when the
    input has two samples per target symbol and [0 <= O <= L]; and when
    [L < O + B] no tuple is yielded. *)
Theorem train_emits model data (B : Z) (n_iter : option Z) optimizer st :
  0 < B -> (forall n, n_iter = Some n -> 0 <= n) ->
  exists n_batch batch_gen out,
    get_train_batch data B (overlaps model) 2 = Ok (n_batch, batch_gen) /\
    train model data B n_iter optimizer st = Ok out /\
    PySeq.len out =
      match n_iter with
      | None => PySeq.len batch_gen
      | Some n => Z.min n (PySeq.len batch_gen)
      end /\
    (PySeq.len (x data) < overlaps model + B -> out = []) /\
    (PySeq.len (y data) = PySeq.len (x data) * 2 ->
     0 <= overlaps model <= PySeq.len (x data) ->
     PySeq.len batch_gen = (PySeq.len (x data) - overlaps model) / B).
Proof.
  intros HB Hn.
  destruct (get_train_batch_total data B (overlaps model) HB)
    as (n_batch & batch_gen & Hg & Hle & Hshort).
  exists n_batch, batch_gen. eexists. split; [exact Hg|].
  unfold train, train_trace. rewrite Hg. cbn.
  split; [reflexivity|]. split; [|split].
  - unfold PySeq.len in *. rewrite length_map. unfold train_on.
    destruct (initvar model) as [[[[params module_state] aux] const] sparams].
    rewrite train_loop_length.
    destruct n_iter as [n|]; [specialize (Hn n eq_refl)|]; lia.
  - intros HL. rewrite (Hshort HL). unfold train_on.
    destruct (initvar model) as [[[[params module_state] aux] const] sparams].
    reflexivity.
  - intros Hy HO.
    destruct (get_train_batch_ok data B (overlaps model) 2 HB HO)
      as (g & Hg' & Hlen & _); [lia|assumption|].
    rewrite Hg in Hg'. injection Hg' as _ <-. exact Hlen.
Qed.

Lemma apply_updates_None params (updates : gmap (list string) Tensor) k :
  params !! k = None -> apply_updates params updates !! k = None.
Proof.
  intros Hk. unfold apply_updates. rewrite map_lookup_zip_with, Hk.
  reflexivity.
Qed.

(** One iteration leaves the static parameters and the constants as they
    are and gives the trainable parameters no new key. *)
Lemma train_body_frame model optimizer l batch loss l' :
  train_body model optimizer l batch = (loss, l') ->
  l_sparams l' = l_sparams l /\ l_const l' = l_const l /\
  forall k, l_params l !! k = None -> l_params l' !! k = None.
Proof.
  unfold train_body, update_step. destruct batch as [y x].
  destruct (value_and_grad _ _) as [[loss0 st0] grads].
  destruct (opt_update _ _ _ _) as [updates new_opt_state].
  intros [= <- <-]. cbn. repeat split.
  intros k. apply apply_updates_None.
Qed.

Lemma train_loop_frame model optimizer (n_iter i : Z) batch_gen l
    (N : nat) loss l' :
  train_loop model optimizer n_iter i batch_gen l !! N = Some (loss, l') ->
  l_sparams l' = l_sparams l /\ l_const l' = l_const l /\
  forall k, l_params l !! k = None -> l_params l' !! k = None.
Proof.
  revert i l N; induction batch_gen as [|batch batch_gen IH]; intros i l N.
  - cbn. discriminate.
  - cbn [train_loop]. destruct (n_iter <=? i); [discriminate|].
    destruct (train_body model optimizer l batch) as [loss1 l1] eqn:Hb.
    apply train_body_frame in Hb as (Hs & Hc & Hp).
    destruct N as [|N]; cbn.
    + intros [= <- <-]. auto.
    + intros HN. apply IH in HN as (Hs' & Hc' & Hp').
      rewrite Hs', Hc'. auto.
Qed.

Lemma dict_split_lookup {V} (d : gmap (list string) V) paths k :
  k ∈ paths ->
  (dict_split d paths).1 !! k = d !! k /\
  (dict_split d paths).2 !! k = None.
Proof.
  intros Hk. unfold dict_split. cbn. split.
  - destruct (d !! k) as [v|] eqn:Hd.
    + apply map_lookup_filter_Some. auto.
    + apply map_lookup_filter_None. auto.
  - apply map_lookup_filter_None. right. intros v _. cbn. auto.
Qed.

Lemma dict_merge_lookup_r {V} (a b : gmap (list string) V) k v :
  b !! k = Some v -> dict_merge a b !! k = Some v.
Proof. intros Hb. unfold dict_merge. apply lookup_union_Some_l, Hb. Qed.

(** C6: let [model] come from [model_init] with the static key paths
    [sparams_flatkeys], and let [l] be the local variables of [train]
    after any iteration.  The static parameters are the ones the model was
    created with; a static key [k] holds in them the value [v] that the
    initialization of the module gave it, it is not among the trainable
    parameters the optimizer has updated, and the merged parameters of the
    next forward pass hold [v] at [k]. *)
Theorem static_params_frozen data base_conf sparams_flatkeys
    (n_symbols sps : Z) name model data' (B : Z) n_iter optimizer st
    trace (N : nat) loss l k v :
  model_init data base_conf sparams_flatkeys n_symbols sps name = Ok model ->
  train_trace model data' B n_iter optimizer st = Ok trace ->
  trace !! N = Some (loss, l) ->
  k ∈ sparams_flatkeys ->
  iv_params (init (module model) 0
               (mkSignal (PySeq.slice_to (y data) (n_symbols * sps)))).2
    !! k = Some v ->
  l_sparams l = (initvar model).2 /\
  l_sparams l !! k = Some v /\
  l_params l !! k = None /\
  dict_merge (l_params l) (l_sparams l) !! k = Some v.
Proof.
  intros Hinit Htrain HN Hk Hv.
  destruct (model_init_ok _ _ _ _ _ _ _ Hinit) as [_ Hiv]. cbn zeta in Hiv.
  set (v0 := (init (module model) 0 _).2) in *.
  destruct (dict_split_lookup (iv_params v0) sparams_flatkeys k Hk)
    as [Hs Hp].
  unfold dict_split in Hs, Hp, Hiv. cbn [fst snd] in Hs, Hp, Hiv.
  unfold train_trace in Htrain.
  destruct (get_train_batch _ _ _ _) as [[n_batch batch_gen]|e];
    [|discriminate].
  cbn in Htrain. injection Htrain as <-.
  unfold train_on in HN. rewrite Hiv in HN.
  apply train_loop_frame in HN as (Hs' & _ & Hp').
  cbn [l_sparams l_params] in Hs', Hp'.
  assert (Hlk : l_sparams l !! k = Some v)
    by (rewrite Hs', Hs; exact Hv).
  rewrite Hiv. cbn [snd].
  repeat split; auto using dict_merge_lookup_r.
Qed.

(** *** Evaluation *)

(** C9: [test] applies the module once, to the whole input signal, with
    the given parameters or the model's initial ones merged with the
    static ones; the metric is computed from the output values, the
    target cut to [x[start:stop]] of the output's validity window (which
    for a stop counted from the end drops [start] symbols at the front and
    [-stop] at the back), and the evaluation range as the caller gave it;
    the result is the metric with the whole output signal, and the state
    the module returns has no part in it. *)
Theorem test_single_pass model (params : option (gmap (list string) Tensor))
    data (eval_range : Z * Z)
    (metric_fn : list (list (complex T)) -> list Sym -> R -> Z * Z -> Metric) :
  let variables :=
    {| v_params :=
         dict_merge (default (initvar model).1.1.1.1 params)
           (initvar model).2;
       v_aux_inputs :=
         dict_replace (initvar model).1.1.2 "truth" (x data);
       v_const := (initvar model).1.2;
       v_state := (initvar model).1.1.1.2 |} in
  let z := (apply (module model) variables (mkSignal (y data))).1 in
  test model params data eval_range metric_fn
  = (metric_fn (val z)
       (PySeq.slice (x data) (start (t z)) (stop (t z))) (sqrt 10)
       eval_range, z) /\
  (0 <= start (t z) -> stop (t z) < 0 ->
   start (t z) <= PySeq.len (x data) + stop (t z) ->
   PySeq.slice (x data) (start (t z)) (stop (t z))
   = window (x data) (start (t z))
       (PySeq.len (x data) + stop (t z) - start (t z))) /\
  forall module' : @Layer T Tensor State Const Sym,
    (forall v s, (apply module' v s).1 = (apply (module model) v s).1) ->
    test {| module := module'; initvar := initvar model;
            overlaps := overlaps model; name := name model |}
      params data eval_range metric_fn
    = test model params data eval_range metric_fn.
Proof.
  intros variables z.
  assert (Heq : forall m : @Model T Tensor State Const Sym,
    initvar m = initvar model ->
    test m params data eval_range metric_fn
    = (let z' := (apply (module m) variables (mkSignal (y data))).1 in
       (metric_fn (val z')
          (PySeq.slice (x data) (start (t z')) (stop (t z'))) (sqrt 10)
          eval_range, z'))).
  { intros m Hm. unfold test. subst variables. rewrite Hm.
    destruct (initvar model) as [[[[p0 state] aux] const] sparams].
    cbn [fst snd].
    destruct params as [params|]; cbn [default];
      destruct (apply (module m) _ _) as [z' s']; reflexivity. }
  split; [apply (Heq model eq_refl)|].
  split; [apply slice_negative_stop|].
  intros module' Hout. rewrite (Heq model eq_refl), Heq by reflexivity.
  cbn [module]. rewrite Hout. reflexivity.
Qed.

End ModelProperties.

(** ** The properties on a small setting *)

Section SmallSetting.
Import Toy.
Local Open Scope Z_scope.


Lemma ncs_symmetric_rows :
  same_shape [[3%R; 4%R]] [[4%R; 3%R]] /\
  negative_cosine_similarity [[3%R; 4%R]] [[4%R; 3%R]]
  = negative_cosine_similarity [[4%R; 3%R]] [[3%R; 4%R]].
Proof.
  assert (Hs : same_shape [[3%R; 4%R]] [[4%R; 3%R]]) by (repeat constructor).
  split; [exact Hs|]. apply (ncs_symmetric _ _ Hs).
Defined.

Lemma model_init_overlaps_toy :
  model_init data conf [["b"%string]] 4 2 "Model" = Ok model /\
  overlaps model = Z.abs (1 - -1).
Proof.
  assert (Hi : model_init data conf [["b"%string]] 4 2 "Model" = Ok model)
    by reflexivity.
  split; [exact Hi|].
  apply (model_init_overlaps (OptState := unit) data conf [["b"%string]] 4 2 "Model" model Hi).
  cbn. lia.
Defined.

Lemma get_train_batch_windows_toy :
  exists batch_gen,
    get_train_batch data 1 2 2 = Ok (2, batch_gen) /\
    PySeq.len batch_gen = 2.
Proof.
  destruct (get_train_batch_windows data 1 2 2) as (g & Hg & Hl & _).
  - lia.
  - unfold data, PySeq.len. cbn. lia.
  - lia.
  - reflexivity.
  - exists g. split; [exact Hg|exact Hl].
Defined.

Lemma train_emits_toy :
  exists out,
    train model data 1 (Some 1) optimizer draws = Ok out /\
    PySeq.len out = 1.
Proof.
  destruct (train_emits model data 1 (Some 1) optimizer draws)
    as (n_batch & g & out & Hg & Ht & Hl & _ & Hav).
  - lia.
  - intros n [= <-]. lia.
  - exists out. split; [exact Ht|].
    rewrite Hl, Hav; [reflexivity|reflexivity|].
    unfold data, model, PySeq.len. cbn. lia.
Defined.

Lemma static_params_frozen_toy :
  l_sparams first.2 !! ["b"%string] = Some 7 /\
  l_params first.2 !! ["b"%string] = None /\
  dict_merge (l_params first.2) (l_sparams first.2) !! ["b"%string]
  = Some 7.
Proof.
  assert (Hi : model_init data conf [["b"%string]] 4 2 "Model" = Ok model)
    by reflexivity.
  assert (Ht : train_trace model data 1 None optimizer draws
               = Ok (train_on model None optimizer draws
                       (2, [batch0; batch1])))
    by reflexivity.
  assert (H0 : train_on model None optimizer draws (2, [batch0; batch1])
               !! 0%nat = Some (first.1, first.2)).
  { unfold first. cbn [train_on initvar model].
    change (opt_init optimizer {[ ["w"%string] := 5 ]}) with tt.
    fold locals. fold model.
    cbn [train_loop Z.leb Z.compare].
    destruct (train_body model optimizer locals batch0) as [loss l].
    reflexivity. }
  assert (Hk : ["b"%string] ∈ [["b"%string]]) by (apply list_elem_of_here).
  destruct (static_params_frozen data conf [["b"%string]] 4 2 "Model" model
              data 1 None optimizer draws _ 0%nat first.1 first.2
              ["b"%string] 7 Hi Ht H0 Hk eq_refl)
    as (_ & H1 & H2 & H3).
  auto.
Defined.

Lemma configuration_errors_eager_eval :
  exists e,
    model_init data
      {| conf_steps := 1; conf_dtaps := 3; conf_ntaps := 3;
         conf_rtaps := 3; conf_init_fn := (tt, tt); conf_mode := "eval" |}
      [] 4 2 "Model" = Raise e /\
    e = ValueError "invalid mode eval".
Proof.
  destruct (configuration_errors_eager data
              {| conf_steps := 1; conf_dtaps := 3; conf_ntaps := 3;
                 conf_rtaps := 3; conf_init_fn := (tt, tt);
                 conf_mode := "eval" |} [] 4 2 "Model") as [Hmode _].
  destruct Hmode as (e & _ & Hm & He); [discriminate|discriminate|].
  exists e. split; [exact Hm|]. apply He; reflexivity.
Defined.

Lemma loss_fn_state_reinit :
  loss_fn layer_reinit ∅ 0 [[Cplx 1%R 0%R]] [1] ∅ tt ∅ draws
  = loss_fn layer ∅ 0 [[Cplx 1%R 0%R]] [1] ∅ tt ∅ draws.
Proof.
  apply (loss_fn_state layer ∅ 0 [[Cplx 1%R 0%R]] [1] ∅ tt ∅ draws);
    reflexivity.
Defined.

Lemma test_single_pass_restate :
  test {| module := layer_restate; initvar := initvar model;
          overlaps := overlaps model; name := name model |}
    None data (0, -1) metric_fn
  = test model None data (0, -1) metric_fn.
Proof.
  apply (test_single_pass model None data (0, -1) metric_fn).
  reflexivity.
Defined.
End SmallSetting.

(** * Further properties of the code *)

(** ** Construction *)

Section ConstructionMore.
Context {InitFn : Type}.
Local Open Scope Z_scope.

(** X1: [_assert_taps] with a samples-per-symbol factor of zero raises
    [ZeroDivisionError]; with any other factor it accepts the tap counts
    exactly when none of them is a multiple of the factor, and every error
    it raises is an [AssertionError]. *)
Theorem assert_taps_iff (dtaps ntaps rtaps sps : Z) :
  (sps = 0 -> _assert_taps dtaps ntaps rtaps sps = Raise ZeroDivisionError) /\
  (sps <> 0 ->
   (_assert_taps dtaps ntaps rtaps sps = Ok tt <->
    dtaps mod sps <> 0 /\ ntaps mod sps <> 0 /\ rtaps mod sps <> 0) /\
   (forall e, _assert_taps dtaps ntaps rtaps sps = Raise e ->
      exists msg, e = AssertionError msg)).
Proof.
  split.
  - intros ->. reflexivity.
  - intros Hs. unfold _assert_taps, py_mod, py_assert.
    destruct (Z.eqb_spec sps 0) as [|_]; [contradiction|]. cbn.
    destruct (Z.eqb_spec (dtaps mod sps) 0) as [Hd|Hd]; cbn.
    { split; [split; [discriminate|tauto]|]. intros e [= <-]. eauto. }
    destruct (Z.eqb_spec (ntaps mod sps) 0) as [Hn|Hn]; cbn.
    { split; [split; [discriminate|tauto]|]. intros e [= <-]. eauto. }
    destruct (Z.eqb_spec (rtaps mod sps) 0) as [Hr|Hr]; cbn.
    { split; [split; [discriminate|tauto]|]. intros e [= <-]. eauto. }
    split; [tauto|]. discriminate.
Qed.

(** X2: [make_base_module] returns a module exactly when the three tap
    counts are odd and the mode is ['train'] or ['test'], and the module is
    then the stack of FDBP, power normalization, frequency-offset
    estimation, [rtaps]-tap convolution and MIMO filter, the two adaptive
    layers sharing one training flag: constant in mode ['train'], switching
    at 200000 in mode ['test']. *)
Theorem make_base_module_ok (steps dtaps ntaps rtaps : Z)
    (init_fn : InitFn * InitFn) (w0 : R) (mode : string)
    (base : ModuleSpec InitFn) :
  make_base_module steps dtaps ntaps rtaps init_fn w0 mode = Ok base <->
  Z.odd dtaps = true /\ Z.odd ntaps = true /\ Z.odd rtaps = true /\
  exists mimo_train,
    ((mode = "train"%string /\ mimo_train = TrainAlways) \/
     (mode = "test"%string /\
      mimo_train = PiecewiseConstant [200000] [true; false])) /\
    base = Serial [ FDBP steps dtaps ntaps init_fn.1 init_fn.2;
                    BatchPowerNorm mode;
                    MIMOFOEAf "FOEAf" w0 mimo_train rtaps;
                    VmapConv1d "RConv" rtaps;
                    MIMOAF mimo_train ].
Proof.
  assert (Hodd : forall a, Z.odd a = negb (Z.even a))
    by (intros a; rewrite <- Z.negb_odd; destruct (Z.odd a); reflexivity).
  rewrite !Hodd.
  destruct init_fn as [d_init n_init]. cbn [fst snd].
  destruct (Z.even dtaps) eqn:Hd;
    [|destruct (Z.even ntaps) eqn:Hn; [|destruct (Z.even rtaps) eqn:Hr]].
  1-3: destruct (make_base_module_even steps dtaps ntaps rtaps
                   (d_init, n_init) w0 mode) as [msg Hm];
       [rewrite ?Hd, ?Hn, ?Hr; auto|];
       rewrite Hm; cbn; split; [discriminate|];
       intros (? & ? & ? & _); discriminate.
  unfold make_base_module. rewrite (assert_taps_odd _ _ _ Hd Hn Hr). cbn.
  destruct (String.eqb_spec mode "train") as [->|Htrain].
  { cbn. split.
    - intros [= <-]. repeat split. exists TrainAlways. auto.
    - intros (_ & _ & _ & m & [[_ ->]|[Ht _]] & ->);
        [reflexivity|discriminate]. }
  destruct (String.eqb_spec mode "test") as [->|Htest].
  { cbn. split.
    - intros [= <-]. repeat split. eexists. split; [right; eauto|reflexivity].
    - intros (_ & _ & _ & m & [[Ht _]|[_ ->]] & ->);
        [discriminate|reflexivity]. }
  cbn. split; [discriminate|].
  intros (_ & _ & _ & m & [[Ht _]|[Ht _]] & _); contradiction.
Qed.
End ConstructionMore.

Section NormalizationMore.
Local Open Scope R_scope.
Implicit Types (r s : list R) (p z x : list (list R)).

Lemma sumsq_opp r : sumsq (map Ropp r) = sumsq r.
Proof.
  induction r as [|a r IH]; [reflexivity|].
  cbn [map]. rewrite !sumsq_cons, IH. ring.
Qed.

Lemma l2_normalize_row_opp r :
  l2_normalize_row eps (map Ropp r) = map Ropp (l2_normalize_row eps r).
Proof.
  rewrite !l2_normalize_row_eq. unfold row_norm. rewrite sumsq_opp, !map_map.
  apply map_ext. intros a. unfold Rdiv. ring.
Qed.

Lemma dot_opp_l r s : dot (map Ropp r) s = - dot r s.
Proof.
  revert s; induction r as [|a r IH]; intros [|b s]; cbn [map];
    try (unfold dot; cbn; ring).
  rewrite !dot_cons, IH. ring.
Qed.

Lemma s_sum_opp (v : list R) : s_sum (map Ropp v) = - s_sum v.
Proof.
  induction v as [|a v IH]; cbn [map].
  - cbn. ring.
  - change (s_sum (?a :: ?v)) with (a + s_sum v). rewrite IH.
    change (s_sum (?a :: ?v)) with (a + s_sum v). ring.
Qed.

(** X6: negating every entry of the first argument negates the loss. *)
Theorem ncs_negate p z :
  same_shape p z ->
  negative_cosine_similarity (map (map Ropp) p) z
  = - negative_cosine_similarity p z.
Proof.
  intros Hshape. rewrite !ncs_eq. f_equal.
  assert (Hz : zip_with dot (map (l2_normalize_row eps) (map (map Ropp) p))
                 (map (l2_normalize_row eps) z)
               = map Ropp (zip_with dot (map (l2_normalize_row eps) p)
                             (map (l2_normalize_row eps) z))).
  { induction Hshape as [|r s p z _ _ IH]; [reflexivity|].
    cbn [map zip_with]. rewrite IH, l2_normalize_row_opp, dot_opp_l.
    reflexivity. }
  rewrite Hz. unfold s_mean. rewrite s_sum_opp, length_map.
  change (s_div ?a ?b) with (a / b). unfold Rdiv. ring.
Qed.

Lemma l2_normalize_row_zero r :
  Forall (fun a => a = 0) r -> l2_normalize_row eps r = r.
Proof.
  intros Hz. rewrite l2_normalize_row_eq. generalize (row_norm r).
  intros d. induction Hz as [|a r -> _ IH]; [reflexivity|].
  cbn [map]. rewrite IH. f_equal. unfold Rdiv. ring.
Qed.

Lemma dot_zero_l r s : Forall (fun a => a = 0) r -> dot r s = 0.
Proof.
  intros Hz; revert s; induction Hz as [|a r -> _ IH]; intros [|b s];
    try reflexivity.
  rewrite dot_cons, IH. ring.
Qed.

(** X7: an all-zero array with at least one row is left as it is by
    [l2_normalize], and its loss against any array of its shape is 0. *)
Theorem ncs_zero_rows p z :
  same_shape p z -> p <> [] -> Forall (Forall (fun a => a = 0)) p ->
  l2_normalize p = p /\ negative_cosine_similarity p z = 0.
Proof.
  intros Hshape Hne Hz.
  assert (Hn : map (l2_normalize_row eps) p = p).
  { clear Hshape Hne. induction Hz as [|r p Hr _ IH]; [reflexivity|].
    cbn [map]. rewrite IH, (l2_normalize_row_zero r Hr). reflexivity. }
  split; [exact Hn|].
  rewrite ncs_eq, Hn.
  assert (Hs : s_sum (zip_with dot p (map (l2_normalize_row eps) z)) = 0).
  { clear Hn Hshape Hne. revert z;
      induction Hz as [|r p Hr _ IH]; intros [|s z]; try reflexivity.
    cbn [map zip_with].
    change (s_sum (?a :: ?v)) with (a + s_sum v).
    rewrite IH, (dot_zero_l r _ Hr). ring. }
  unfold s_mean. rewrite Hs. change (s_div ?a ?b) with (a / b).
  unfold Rdiv. ring.
Qed.
End NormalizationMore.

Section AugmentationProperties.
Context {T : Type} `{Scalar T}.
Local Open Scope R_scope.
Implicit Types (x : list (list (complex T))) (st : RandomState).

Lemma same_shape_refl {A} (a : list (list A)) : same_shape a a.
Proof. unfold same_shape. induction a; constructor; auto. Qed.

Lemma same_shape_map {A} (f : A -> A) (a : list (list A)) :
  same_shape a (map (map f) a).
Proof.
  unfold same_shape. induction a as [|r a IH]; cbn [map]; constructor; auto.
  symmetry. apply length_map.
Qed.

(** X8: [apply_transform] keeps the shape of the batch and the tape of
    draws; when the first draw is at least [p] it returns the batch as it is
    after that one draw, otherwise it takes a second draw and multiplies
    every sample by the one scale [np.random.uniform] makes of that
    draw. *)
Theorem apply_transform_cases x (lo hi p : R) st :
  let out := apply_transform x (lo, hi) p st in
  tape out.2 = tape st /\ same_shape x out.1 /\
  ((p <= tape st (pos st) /\ out.1 = x /\ pos out.2 = S (pos st)) \/
   (tape st (pos st) < p /\ pos out.2 = S (S (pos st)) /\
    out.1 = array_scale x
              (np_random_uniform lo hi
                 {| tape := tape st; pos := S (pos st) |}).1)).
Proof.
  unfold apply_transform. cbn.
  destruct (Rlt_dec (tape st (pos st)) p) as [Hp|Hp]; cbn.
  - split; [reflexivity|]. split; [apply same_shape_map|]. right.
    split; [exact Hp|]. split; reflexivity.
  - split; [reflexivity|]. split; [apply same_shape_refl|]. left.
    split; [lra|]. split; reflexivity.
Qed.

(** X9: [apply_transform1] keeps the shape of the batch and every
    imaginary part; when the first draw is at least [p] it returns the batch
    as it is after that one draw, otherwise it takes a second draw and adds
    the one shift [np.random.uniform] makes of that draw to every real
    part. *)
Theorem apply_transform1_cases x (lo hi p : R) st :
  let out := apply_transform1 x (lo, hi) p st in
  tape out.2 = tape st /\ same_shape x out.1 /\
  map (map im) out.1 = map (map im) x /\
  ((p <= tape st (pos st) /\ out.1 = x /\ pos out.2 = S (pos st)) \/
   (tape st (pos st) < p /\ pos out.2 = S (S (pos st)) /\
    out.1 = array_shift x
              (np_random_uniform lo hi
                 {| tape := tape st; pos := S (pos st) |}).1)).
Proof.
  unfold apply_transform1. cbn.
  destruct (Rlt_dec (tape st (pos st)) p) as [Hp|Hp]; cbn.
  - split; [reflexivity|]. split; [apply same_shape_map|]. split.
    { unfold array_shift. rewrite map_map. apply map_ext. intros row.
      rewrite map_map. reflexivity. }
    right. split; [exact Hp|]. split; reflexivity.
  - split; [reflexivity|]. split; [apply same_shape_refl|].
    split; [reflexivity|]. left.
    split; [lra|]. split; reflexivity.
Qed.

(** X10: [apply_transform4] never returns a filtered signal: when the
    first draw is at least [p] it returns its input after one draw, and
    otherwise it raises [NameError] for [signal], which the file does not
    import, after the second draw. *)
Theorem apply_transform4_never_filters x (range : R * R)
    (band_width sampling_rate p : R) st :
  let out := apply_transform4 x range band_width sampling_rate p st in
  tape out.2 = tape st /\
  (p <= tape st (pos st) -> out.1 = inr x /\ pos out.2 = S (pos st)) /\
  (tape st (pos st) < p ->
   out.1 = inl (NameError "signal") /\ pos out.2 = S (S (pos st))) /\
  (forall x', out.1 = inr x' -> x' = x).
Proof.
  unfold apply_transform4. cbn.
  destruct (Rlt_dec (tape st (pos st)) p) as [Hp|Hp]; cbn.
  - split; [reflexivity|]. split; [intros; exfalso; lra|].
    split; [auto|]. discriminate.
  - split; [reflexivity|]. split; [auto|].
    split; [intros; exfalso; lra|]. intros x' [= <-]. reflexivity.
Qed.

Lemma np_random_choice01_spec (p : R) (n : nat) st :
  let out := np_random_choice01 p n st in
  length out.1 = n /\ Forall (fun m => m = 0%Z \/ m = 1%Z) out.1 /\
  pos out.2 = (pos st + n)%nat /\ tape out.2 = tape st.
Proof.
  revert st; induction n as [|n IH]; intros st; cbn.
  - repeat split; auto.
  - specialize (IH {| tape := tape st; pos := S (pos st) |}).
    cbn in IH.
    destruct (np_random_choice01 p n _) as [mask st'] eqn:Hm.
    cbn in *. destruct IH as (Hl & Hf & Hp & Ht).
    split; [lia|]. split; [|split; [lia|exact Ht]].
    constructor; [|exact Hf].
    destruct (Rlt_dec _ _); auto.
Qed.
End AugmentationProperties.

Section RealAugmentations.
Local Open Scope R_scope.
Implicit Types (x : list (list (complex R))) (st : RandomState).

Lemma array_mask_lookup x (mask : list Z) (i : nat) row m :
  x !! i = Some row -> mask !! i = Some m -> (m = 0%Z \/ m = 1%Z) ->
  array_mask x mask !! i = Some row \/
  array_mask x mask !! i = Some (map (fun _ => Cplx 0 0) row).
Proof.
  intros Hx Hm Hm01. unfold array_mask.
  rewrite lookup_zip_with, Hx. cbn. rewrite Hm. cbn.
  destruct Hm01 as [->| ->]; [right|left]; f_equal.
  - apply map_ext. intros [a b]. cbn. f_equal; lra.
  - rewrite <- (map_id row) at 2. apply map_ext. intros [a b]. cbn.
    unfold id. f_equal; lra.
Qed.

(** X11: [apply_transform2] returns the batch as it is when the first
    draw is at least [p], raises when [p > 1], and otherwise takes one more
    draw per row and returns a batch with as many rows in which every row is
    either the row it was or that row with every sample zero. *)
Theorem apply_transform2_rows x (mask_range : Z * Z) (p : R) st :
  let out := apply_transform2 x mask_range p st in
  tape out.2 = tape st /\
  (p <= tape st (pos st) -> out.1 = Ok x /\ pos out.2 = S (pos st)) /\
  (tape st (pos st) < p -> 1 < p ->
   exists e, out.1 = Raise e /\ pos out.2 = S (pos st)) /\
  (tape st (pos st) < p -> p <= 1 ->
   exists x',
     out.1 = Ok x' /\ pos out.2 = (S (pos st) + length x)%nat /\
     length x' = length x /\
     forall (i : nat) row, x !! i = Some row ->
       x' !! i = Some row \/ x' !! i = Some (map (fun _ => Cplx 0 0) row)).
Proof.
  unfold apply_transform2. cbn.
  destruct (Rlt_dec (tape st (pos st)) p) as [Hp|Hp].
  2:{ cbn. split; [reflexivity|]. split; [auto|].
      split; intros; exfalso; lra. }
  destruct (Rlt_dec 1 p) as [H1|H1].
  { cbn. split; [reflexivity|]. split; [intros; exfalso; lra|].
    split; [eauto|]. intros; exfalso; lra. }
  pose proof (np_random_choice01_spec p (length x)
                {| tape := tape st; pos := S (pos st) |}) as Hc.
  destruct (np_random_choice01 p (length x) _) as [mask st'].
  cbn in Hc |- *. destruct Hc as (Hl & Hf & Hpos & Ht).
  split; [exact Ht|]. split; [intros; exfalso; lra|].
  split; [intros; exfalso; lra|]. intros _ _.
  eexists. split; [reflexivity|]. split; [exact Hpos|].
  split.
  - unfold array_mask. rewrite length_zip_with. lia.
  - intros i row Hi.
    assert (Hlt : (i < length mask)%nat)
      by (rewrite Hl; apply lookup_lt_Some in Hi; exact Hi).
    destruct (lookup_lt_is_Some_2 mask i Hlt) as [m Hm].
    apply (array_mask_lookup x mask i row m Hi Hm).
    rewrite Forall_forall in Hf. apply Hf.
    apply list_elem_of_lookup. eauto.
Qed.

End RealAugmentations.

Section SimCLR.
Local Open Scope R_scope.

Lemma s_sum_nonneg (v : list R) : Forall (fun a => 0 <= a) v -> 0 <= s_sum v.
Proof.
  induction 1 as [|a v Ha _ IH]; [cbn; lra|].
  change (s_sum (a :: v)) with (a + s_sum v). lra.
Qed.

Lemma s_mean_nonneg (v : list R) : Forall (fun a => 0 <= a) v -> 0 <= s_mean v.
Proof.
  intros Hv. pose proof (s_sum_nonneg v Hv) as Hs.
  unfold s_mean. change (s_div ?a ?b) with (a / b). cbn [s_const scalar_R].
  destruct v as [|a v].
  - cbn. unfold Rdiv. rewrite Rinv_0. lra.
  - assert (0 < INR (length (a :: v))) by (apply lt_0_INR; cbn; lia).
    apply Rmult_le_pos; [exact Hs|].
    apply Rlt_le, Rinv_0_lt_compat. assumption.
Qed.

Lemma exp_over_pos (t a : R) : 0 < t -> 0 < exp a / t.
Proof. intros Ht. apply Rdiv_lt_0_compat; [apply exp_pos|exact Ht]. Qed.

Lemma sum_exp_nonneg (t : R) (v : list R) :
  0 < t -> 0 <= s_sum (map (fun a => exp a / t) v).
Proof.
  intros Ht. apply s_sum_nonneg. apply Forall_map, Forall_forall.
  intros a _. apply Rlt_le, exp_over_pos, Ht.
Qed.

Lemma neg_log_ratio_nonneg (a n : R) :
  0 < a -> 0 <= n -> 0 <= - ln (a / (a + n)).
Proof.
  intros Ha Hn.
  assert (Hr : 0 < a / (a + n)) by (apply Rdiv_lt_0_compat; lra).
  assert (Hle : a / (a + n) <= 1).
  { apply Rmult_le_reg_r with (a + n); [lra|].
    unfold Rdiv. rewrite Rmult_assoc, Rinv_l; lra. }
  destruct Hle as [Hlt|Heq].
  - pose proof (ln_increasing _ _ Hr Hlt) as Hln. rewrite ln_1 in Hln. lra.
  - rewrite Heq, ln_1. lra.
Qed.

Lemma zip_with_nonneg (f : R -> R -> R) (u v : list R) (P Q : R -> Prop) :
  (forall a b, P a -> Q b -> 0 <= f a b) ->
  Forall P u -> Forall Q v -> Forall (fun c => 0 <= c) (zip_with f u v).
Proof.
  intros Hf Hu; revert v; induction Hu as [|a u Ha _ IH]; intros v Hv;
    destruct Hv as [|b v Hb Hv]; cbn [zip_with]; constructor; auto.
Qed.

(** X13: for a temperature between 0.1 and 10 and a [LARGE_NUM] between
    0 and [1e9] (the defaults are 0.1 and [1e9]),
    [simclr_contrastive_loss] of two real arrays of the same shape with at
    least one row is not negative. *)
Theorem simclr_contrastive_loss_nonneg (z1 z2 : list (list R))
    (temperature LARGE_NUM : R) :
  / 10 <= temperature <= 10 -> 0 <= LARGE_NUM <= 10 ^ 9 ->
  same_shape z1 z2 -> z1 <> [] ->
  0 <= simclr_contrastive_loss z1 z2 temperature LARGE_NUM.
Proof.
  intros Hrange _ Hshape Hne.
  assert (Ht : 0 < temperature) by lra.
  unfold simclr_contrastive_loss.
  set (sim := imap _ _).
  set (negatives := zip_with Rplus _ _).
  assert (Hneg : Forall (fun n => 0 <= n) negatives).
  { subst negatives.
    apply (zip_with_nonneg Rplus _ _ (fun a => 0 <= a) (fun a => 0 <= a)).
    - intros a b Ha Hb. lra.
    - apply Forall_map, Forall_forall. intros row _.
      apply sum_exp_nonneg, Ht.
    - apply Forall_map, Forall_forall. intros row _.
      apply sum_exp_nonneg, Ht. }
  apply s_mean_nonneg. apply Forall_concat. apply Forall_map.
  apply Forall_map. apply Forall_forall. intros row _.
  apply (zip_with_nonneg _ _ _ (fun a => 0 < a) (fun n => 0 <= n)).
  - intros a n Ha Hn. apply neg_log_ratio_nonneg; assumption.
  - apply Forall_map, Forall_forall. intros a _. apply exp_over_pos, Ht.
  - exact Hneg.
Qed.
End SimCLR.

Section LossProperties.
Context {T : Type} `{Scalar T}.
Context {Tensor State Const Sym : Type}.
Local Open Scope R_scope.
Implicit Types (module : @Layer T Tensor State Const Sym)
  (params sparams : gmap (list string) Tensor)
  (aux : gmap (list string) (list Sym))
  (y : list (list (complex T))) (st : RandomState).

Lemma loss_fn_unfold module params (state : State) y (x : list Sym) aux
    (const : Const) sparams st :
  let variables :=
    {| v_params := dict_merge params sparams; v_aux_inputs := aux;
       v_const := const; v_state := state |} in
  let view := apply_transform y (1 / 2, 2) (1 / 2) st in
  let view1 := apply_transform1 y (- 5, 5) (1 / 2) view.2 in
  loss_fn module params state y x aux const sparams st
  = ((negative_cosine_similarity
        (array_abs (val (apply module variables (mkSignal view.1)).1))
        (array_abs (val (apply module variables (mkSignal view1.1)).1)),
      (apply module variables (mkSignal y)).2),
     view1.2).
Proof.
  intros variables view view1. unfold loss_fn. subst view1 view variables.
  destruct (apply_transform y _ _ st) as [yt st1]. cbn [fst snd].
  destruct (apply_transform1 y _ _ st1) as [yt1 st2]. cbn [fst snd].
  destruct (apply module _ (mkSignal y)) as [z0 s0].
  destruct (apply module _ (mkSignal yt)) as [z1 s1].
  destruct (apply module _ (mkSignal yt1)) as [z2 s2].
  reflexivity.
Qed.

Lemma apply_transform_skip y (range : R * R) (p : R) st :
  p <= tape st (pos st) ->
  apply_transform y range p st = (y, {| tape := tape st; pos := S (pos st) |}).
Proof.
  intros Hp. unfold apply_transform. cbn.
  destruct (Rlt_dec _ _); [exfalso; lra|reflexivity].
Qed.

Lemma apply_transform1_skip y (range : R * R) (p : R) st :
  p <= tape st (pos st) ->
  apply_transform1 y range p st
  = (y, {| tape := tape st; pos := S (pos st) |}).
Proof.
  intros Hp. unfold apply_transform1. cbn.
  destruct (Rlt_dec _ _); [exfalso; lra|reflexivity].
Qed.

Lemma apply_transform_draws y (range : R * R) (p : R) st :
  let out := apply_transform y range p st in
  tape out.2 = tape st /\
  ((p <= tape st (pos st) /\ pos out.2 = S (pos st)) \/
   (tape st (pos st) < p /\ pos out.2 = S (S (pos st)))).
Proof.
  unfold apply_transform. cbn.
  destruct (Rlt_dec _ _); cbn; split; auto. left. split; [lra|reflexivity].
Qed.

Lemma apply_transform1_draws y (range : R * R) (p : R) st :
  let out := apply_transform1 y range p st in
  tape out.2 = tape st /\
  ((p <= tape st (pos st) /\ pos out.2 = S (pos st)) \/
   (tape st (pos st) < p /\ pos out.2 = S (S (pos st)))).
Proof.
  unfold apply_transform1. cbn.
  destruct (Rlt_dec _ _); cbn; split; auto. left. split; [lra|reflexivity].
Qed.

(** X14: when neither augmentation is drawn (both draws are at least
    1/2) the three forward passes of [loss_fn] are one and the same:
    [loss_fn] returns the loss of the magnitudes of the module's output on
    [y] against themselves, with the state of that pass, after exactly two
    draws. *)
Theorem loss_fn_without_augmentation module params (state : State) y
    (x : list Sym) aux (const : Const) sparams st :
  let variables :=
    {| v_params := dict_merge params sparams; v_aux_inputs := aux;
       v_const := const; v_state := state |} in
  let out := apply module variables (mkSignal y) in
  1 / 2 <= tape st (pos st) -> 1 / 2 <= tape st (S (pos st)) ->
  loss_fn module params state y x aux const sparams st
  = ((negative_cosine_similarity (array_abs (val out.1))
        (array_abs (val out.1)),
      out.2),
     {| tape := tape st; pos := S (S (pos st)) |}).
Proof.
  intros variables out Hu0 Hu1.
  rewrite loss_fn_unfold. fold variables.
  rewrite (apply_transform_skip y _ _ st Hu0). cbn [fst snd].
  rewrite apply_transform1_skip by exact Hu1. cbn [fst snd tape pos].
  reflexivity.
Qed.

(** X15: [loss_fn] leaves the tape of draws as it is and takes two draws,
    and one more for each augmentation that is drawn: at least two and at
    most four, and two exactly when neither augmentation is drawn. *)
Theorem loss_fn_draws module params (state : State) y (x : list Sym) aux
    (const : Const) sparams st :
  let result := loss_fn module params state y x aux const sparams st in
  tape result.2 = tape st /\
  (pos st + 2 <= pos result.2 <= pos st + 4)%nat /\
  (pos result.2 = (pos st + 2)%nat <->
   1 / 2 <= tape st (pos st) /\ 1 / 2 <= tape st (S (pos st))).
Proof.
  intros result. subst result. rewrite loss_fn_unfold. cbn [fst snd].
  destruct (apply_transform_draws y (1 / 2, 2) (1 / 2) st) as [Ht Hp].
  set (view := apply_transform y (1 / 2, 2) (1 / 2) st) in *.
  destruct (apply_transform1_draws y (- 5, 5) (1 / 2) view.2) as [Ht1 Hp1].
  set (view1 := apply_transform1 y (- 5, 5) (1 / 2) view.2) in *.
  cbn zeta in Ht, Hp, Ht1, Hp1. rewrite Ht in Hp1.
  split; [congruence|].
  destruct Hp as [[Hu Hp]|[Hu Hp]], Hp1 as [[Hu1 Hp1]|[Hu1 Hp1]];
    rewrite Hp in Hu1, Hp1; rewrite Hp1;
    (split; [lia|]); split; try lia; try (intros [? ?]; exfalso; lra);
    try (intros _; split; lra).
Qed.
End LossProperties.

Section TrainingMore.
Context {T : Type} `{Scalar T}.
Context {Tensor State Const Sym OptState Metric InitFn : Type}.
Context `{!@Backend T Tensor State Const Sym InitFn}.
Local Open Scope Z_scope.
Implicit Types (model : @Model T Tensor State Const Sym)
  (optimizer : @GradientTransformation Tensor OptState)
  (data ds : @Input T Sym)
  (l : @Locals Tensor State Const Sym OptState)
  (base_conf : BaseConf InitFn)
  (st : RandomState).

Lemma train_loop_take model optimizer (n m i : Z) batch_gen l :
  n <= m ->
  train_loop model optimizer n i batch_gen l
  = take (Z.to_nat (n - i)) (train_loop model optimizer m i batch_gen l).
Proof.
  intros Hnm. revert i l.
  induction batch_gen as [|batch batch_gen IH]; intros i l.
  - cbn. rewrite take_nil. reflexivity.
  - cbn [train_loop]. destruct (Z.leb_spec n i) as [Hn|Hn].
    + replace (Z.to_nat (n - i)) with 0%nat by lia. reflexivity.
    + destruct (Z.leb_spec m i) as [Hm|Hm]; [lia|].
      destruct (train_body model optimizer l batch) as [loss l'].
      replace (Z.to_nat (n - i)) with (S (Z.to_nat (n - (i + 1)))) by lia.
      cbn [take]. rewrite <- IH. reflexivity.
Qed.

Lemma frame_gen_length {A} (x : list A) (flen fstep : Z) frames :
  frame_gen x flen fstep = Ok frames ->
  frame_shape (PySeq.len x) flen fstep = Ok (PySeq.len frames).
Proof.
  unfold frame_gen, frame_shape.
  destruct (Z.eqb_spec fstep 0); [discriminate|]. cbn.
  intros [= <-]. f_equal. unfold PySeq.len at 2.
  rewrite length_fmap, length_seqZ. lia.
Qed.

Lemma get_train_batch_announced ds (B O sps : Z) n_batch batch_gen :
  get_train_batch ds B O sps = Ok (n_batch, batch_gen) ->
  PySeq.len batch_gen <= n_batch.
Proof.
  unfold get_train_batch.
  destruct (frame_gen (y ds) _ _) as [fy|e] eqn:Hfy; [|discriminate]. cbn.
  destruct (frame_gen (x ds) _ _) as [fx|e] eqn:Hfx; [|discriminate]. cbn.
  rewrite (frame_gen_length _ _ _ _ Hfx). cbn.
  intros [= <- <-]. unfold PySeq.len. rewrite length_zip. lia.
Qed.

(** X16: [train] with a requested count [n] yields the first [n] tuples
    that [train] without a count yields (none when [n <= 0]), and raises
    whenever that one does. *)
Theorem train_prefix model data (B n : Z) optimizer st :
  train model data B (Some n) optimizer st
  = (out ← train model data B None optimizer st;
     Ok (take (Z.to_nat n) out)).
Proof.
  unfold train, train_trace.
  destruct (get_train_batch data B (overlaps model) 2)
    as [[n_batch batch_gen]|e] eqn:Hg; [|reflexivity].
  apply get_train_batch_announced in Hg. cbn. f_equal.
  unfold train_on.
  destruct (initvar model) as [[[[params module_state] aux] const] sparams].
  set (l0 := Build_Locals _ _ _ _ _ _ _).
  rewrite (train_loop_take model optimizer (Z.min n n_batch) n_batch 0)
    by lia.
  pose proof (train_loop_length model optimizer n_batch 0 batch_gen l0)
    as Hlen.
  rewrite <- !fmap_take. f_equal.
  unfold PySeq.len in Hg.
  destruct (Z.le_gt_cases n n_batch).
  - rewrite Z.min_l by lia. f_equal. lia.
  - rewrite Z.min_r by lia. rewrite !take_ge by lia. reflexivity.
Qed.

Lemma train_loop_head model optimizer (n_iter i : Z) batch_gen l it :
  train_loop model optimizer n_iter i batch_gen l !! 0%nat = Some it ->
  exists batch,
    batch_gen !! 0%nat = Some batch /\ it = train_body model optimizer l batch.
Proof.
  destruct batch_gen as [|batch batch_gen]; [discriminate|].
  cbn [train_loop]. destruct (n_iter <=? i); [discriminate|].
  destruct (train_body model optimizer l batch) as [loss l'] eqn:Hb.
  cbn. intros [= <-]. eauto.
Qed.

Lemma train_loop_next model optimizer (n_iter i : Z) batch_gen l (N : nat)
    it :
  train_loop model optimizer n_iter i batch_gen l !! S N = Some it ->
  exists loss l1 batch,
    train_loop model optimizer n_iter i batch_gen l !! N = Some (loss, l1) /\
    batch_gen !! S N = Some batch /\
    it = train_body model optimizer l1 batch.
Proof.
  revert i l N; induction batch_gen as [|b0 batch_gen IH]; intros i l N.
  - discriminate.
  - cbn [train_loop]. destruct (n_iter <=? i); [discriminate|].
    destruct (train_body model optimizer l b0) as [loss0 l0].
    cbn. destruct N as [|N].
    + intros Hit. apply train_loop_head in Hit as (batch & Hb & ->).
      exists loss0, l0, batch. auto.
    + intros Hit. apply IH in Hit as (loss & l1 & batch & Hn & Hb & ->).
      exists loss, l1, batch. auto.
Qed.

Lemma train_body_state model optimizer l (y : list (list (complex T)))
    (x : list Sym) :
  let aux := dict_replace (l_aux l) "truth" x in
  let after := (train_body model optimizer l (y, x)).2 in
  l_aux after = aux /\
  l_const after = l_const l /\
  l_sparams after = l_sparams l /\
  l_module_state after
  = (apply (module model)
       {| v_params := dict_merge (l_params l) (l_sparams l);
          v_aux_inputs := aux; v_const := l_const l;
          v_state := l_module_state l |} (mkSignal y)).2.
Proof.
  cbn zeta. unfold train_body, update_step, value_and_grad.
  rewrite loss_fn_unfold. cbn [fst snd].
  destruct (opt_update _ _ _ _) as [updates new_opt_state].
  cbn. auto.
Qed.

(** X17: from one iteration of [train] to the next the auxiliary inputs
    get the batch's target at ['truth'], the constants and the static
    parameters are carried as they are, and the module state is the one
    the module returns on the batch given the state and the parameters the
    iteration before left. *)
Theorem train_state_carried model data (B : Z) n_iter optimizer st trace
    n_batch batch_gen (N : nat) it :
  get_train_batch data B (overlaps model) 2 = Ok (n_batch, batch_gen) ->
  train_trace model data B n_iter optimizer st = Ok trace ->
  trace !! S N = Some it ->
  exists loss l y x,
    trace !! N = Some (loss, l) /\
    batch_gen !! S N = Some (y, x) /\
    l_aux it.2 = dict_replace (l_aux l) "truth" x /\
    l_const it.2 = l_const l /\
    l_sparams it.2 = l_sparams l /\
    l_module_state it.2
    = (apply (module model)
         {| v_params := dict_merge (l_params l) (l_sparams l);
            v_aux_inputs := dict_replace (l_aux l) "truth" x;
            v_const := l_const l;
            v_state := l_module_state l |} (mkSignal y)).2.
Proof.
  intros Hg Ht Hit. unfold train_trace in Ht. rewrite Hg in Ht.
  cbn in Ht. injection Ht as <-. unfold train_on in Hit |- *.
  destruct (initvar model) as [[[[params module_state] aux] const] sparams].
  apply train_loop_next in Hit as (loss & l & [y x] & Hn & Hb & ->).
  exists loss, l, y, x.
  destruct (train_body_state model optimizer l y x) as (Ha & Hc & Hp & Hs).
  auto 10.
Qed.
End TrainingMore.

Section InitializationMore.
Context {T : Type} `{Scalar T}.
Context {Tensor State Const Sym OptState Metric InitFn : Type}.
Context `{!@Backend T Tensor State Const Sym InitFn}.
Local Open Scope Z_scope.
Implicit Types (model : @Model T Tensor State Const Sym)
  (data ds : @Input T Sym)
  (base_conf : BaseConf InitFn).

Lemma dict_split_merge {V} (d : gmap (list string) V) paths :
  dict_merge (dict_split d paths).2 (dict_split d paths).1 = d /\
  (dict_split d paths).1 ##ₘ (dict_split d paths).2.
Proof.
  unfold dict_merge, dict_split. cbn [fst snd]. split.
  - apply (map_filter_union_complement (fun kv => kv.1 ∈ paths) d).
  - apply (map_disjoint_filter_complement (fun kv => kv.1 ∈ paths) d).
Qed.

(** X18: the trainable and the static parameters of a model from
    [model_init] are disjoint and merge to the parameters the module was
    initialized with; the static ones are those at the listed key paths, and
    with no key path listed every parameter is trainable. *)
Theorem model_init_partition data base_conf sparams_flatkeys
    (n_symbols sps : Z) name model :
  model_init data base_conf sparams_flatkeys n_symbols sps name = Ok model ->
  let v0 := (init (module model) 0
               (mkSignal (PySeq.slice_to (y data) (n_symbols * sps)))).2 in
  let params := (initvar model).1.1.1.1 in
  let sparams := (initvar model).2 in
  dict_merge params sparams = iv_params v0 /\
  params ##ₘ sparams /\
  (forall k, is_Some (sparams !! k) <->
             k ∈ sparams_flatkeys /\ is_Some (iv_params v0 !! k)) /\
  (sparams_flatkeys = [] -> sparams = ∅ /\ params = iv_params v0).
Proof.
  intros Hinit v0 params sparams.
  destruct (model_init_ok _ _ _ _ _ _ _ Hinit) as [_ Hiv]. cbn zeta in Hiv.
  fold v0 in Hiv. subst params sparams. rewrite Hiv. cbn [fst snd].
  destruct (dict_split_merge (iv_params v0) sparams_flatkeys) as [Hm Hd].
  split; [exact Hm|]. split; [symmetry; exact Hd|]. split.
  - intros k. unfold dict_split. cbn [fst]. unfold is_Some. split.
    + intros [v Hv]. apply map_lookup_filter_Some in Hv as [Hv Hk]. eauto.
    + intros [Hk [v Hv]]. exists v. apply map_lookup_filter_Some. auto.
  - intros ->. unfold dict_split. cbn [fst snd]. split.
    + apply map_eq. intros k. rewrite lookup_empty.
      apply map_lookup_filter_None. right. intros v _ Hk. cbn in Hk.
      apply elem_of_nil in Hk. exact Hk.
    + apply map_eq. intros k. destruct (iv_params v0 !! k) as [v|] eqn:Hk.
      * apply map_lookup_filter_Some. split; [exact Hk|].
        cbn. apply not_elem_of_nil.
      * apply map_lookup_filter_None. auto.
Qed.

(** X19: [test] without parameters, on a model from [model_init],
    applies the module to the variables its initialization returned, with
    the target of the evaluated data at ['truth']. *)
Theorem test_after_model_init data base_conf sparams_flatkeys
    (n_symbols sps : Z) name model data' (eval_range : Z * Z)
    (metric_fn : list (list (complex T)) -> list Sym -> R -> Z * Z -> Metric) :
  model_init data base_conf sparams_flatkeys n_symbols sps name = Ok model ->
  let v0 := (init (module model) 0
               (mkSignal (PySeq.slice_to (y data) (n_symbols * sps)))).2 in
  let z :=
    (apply (module model)
       {| v_params := iv_params v0;
          v_aux_inputs := dict_replace (iv_aux_inputs v0) "truth" (x data');
          v_const := iv_const v0;
          v_state := iv_af_state v0 |} (mkSignal (y data'))).1 in
  test model None data' eval_range metric_fn
  = (metric_fn (val z)
       (PySeq.slice (x data') (start (t z)) (stop (t z))) (sqrt 10)
       eval_range, z).
Proof.
  intros Hinit v0 z.
  destruct (model_init_ok _ _ _ _ _ _ _ Hinit) as [_ Hiv]. cbn zeta in Hiv.
  fold v0 in Hiv.
  destruct (dict_split_merge (iv_params v0) sparams_flatkeys) as [Hm _].
  unfold test. rewrite Hiv. cbn [fst snd]. rewrite Hm. fold z.
  subst z. destruct (apply (module model) _ _) as [z' s']. reflexivity.
Qed.

Lemma slice_to_take {A} (l : list A) (n : Z) :
  0 <= n -> PySeq.slice_to l n = take (Z.to_nat n) l.
Proof.
  intros Hn. unfold PySeq.slice_to, PySeq.slice, PySeq.clamp, PySeq.len.
  change (0 <? 0) with false. cbv iota.
  destruct (Z.ltb_spec n 0); [lia|].
  rewrite (Z.min_l 0) by lia. change (Z.to_nat 0) with 0%nat.
  rewrite drop_0.
  destruct (Z.le_gt_cases n (Z.of_nat (length l))).
  - rewrite Z.min_l by lia. f_equal. lia.
  - rewrite Z.min_r by lia. rewrite !take_ge by lia. reflexivity.
Qed.

(** X20: [model_init] reads of the data only the initial frequency
    offset and the first [n_symbols * sps] input samples. *)
Theorem model_init_reads_prefix data1 data2 base_conf sparams_flatkeys
    (n_symbols sps : Z) name :
  0 <= n_symbols * sps ->
  w0 data1 = w0 data2 ->
  take (Z.to_nat (n_symbols * sps)) (y data1)
  = take (Z.to_nat (n_symbols * sps)) (y data2) ->
  model_init data1 base_conf sparams_flatkeys n_symbols sps name
  = model_init data2 base_conf sparams_flatkeys n_symbols sps name.
Proof.
  intros Hn Hw Hy. unfold model_init.
  rewrite !slice_to_take by exact Hn. rewrite Hw, Hy. reflexivity.
Qed.

(** *** Batches tile the data *)

Lemma windows_tile {A} (l : list A) (B : Z) (k : nat) :
  0 <= B ->
  concat ((fun i => window l (i * B) B) <$> seqZ 0 (Z.of_nat k))
  = take (Z.to_nat (Z.of_nat k * B)) l.
Proof.
  intros HB. induction k as [|k IH].
  - cbn. rewrite take_0. reflexivity.
  - replace (Z.of_nat (S k)) with (Z.of_nat k + 1) by lia.
    rewrite seqZ_app by lia. rewrite fmap_app, concat_app, IH.
    change (seqZ (0 + Z.of_nat k) 1) with [0 + Z.of_nat k].
    cbn [fmap list_fmap concat]. rewrite app_nil_r. unfold window.
    replace (Z.to_nat ((Z.of_nat k + 1) * B))
      with (Z.to_nat (Z.of_nat k * B) + Z.to_nat B)%nat by nia.
    rewrite Z.add_0_l. apply take_take_drop.
Qed.

Lemma window_take {A} (l : list A) (a n m : Z) :
  0 <= n <= m -> take (Z.to_nat n) (window l a m) = window l a n.
Proof.
  intros Hn. unfold window. rewrite take_take. f_equal. lia.
Qed.

(** X21: under the conditions of C3 the first [B] symbols of the
    batches, one batch after the other, are the first [n * B] target
    symbols, and the first [B * sps] samples of the batches are the first
    [n * B * sps] input samples: between the batches the stride skips and
    repeats nothing. *)
Theorem get_train_batch_tiles ds (B O sps : Z) :
  0 < B -> 0 <= O <= PySeq.len (x ds) -> 0 < sps ->
  PySeq.len (y ds) = PySeq.len (x ds) * sps ->
  let n := (PySeq.len (x ds) - O) / B in
  exists batch_gen,
    get_train_batch ds B O sps = Ok (n, batch_gen) /\
    concat ((fun b => take (Z.to_nat B) b.2) <$> batch_gen)
    = take (Z.to_nat (n * B)) (x ds) /\
    concat ((fun b => take (Z.to_nat (B * sps)) b.1) <$> batch_gen)
    = take (Z.to_nat (n * (B * sps))) (y ds).
Proof.
  intros HB HO Hsps Hy n.
  destruct (get_train_batch_ok ds B O sps HB HO Hsps Hy)
    as (batch_gen & Hg & Hlen & Hwin).
  fold n in Hg, Hlen, Hwin.
  exists batch_gen. split; [exact Hg|].
  assert (Hn : 0 <= n) by (unfold PySeq.len in Hlen; lia).
  assert (Hb : batch_gen
               = (fun i => (window (y ds) (i * (B * sps)) ((B + O) * sps),
                            window (x ds) (i * B) (B + O)))
                 <$> seqZ 0 n).
  { apply list_eq. intros i. rewrite list_lookup_fmap.
    destruct (decide (Z.of_nat i < n)) as [Hi|Hi].
    - rewrite lookup_seqZ_lt by exact Hi. cbn.
      rewrite <- (Nat2Z.id i) at 1. rewrite Hwin by lia.
      rewrite Z.add_0_l. reflexivity.
    - rewrite lookup_seqZ_ge by lia. cbn.
      apply lookup_ge_None. unfold PySeq.len in Hlen. lia. }
  rewrite Hb, <- !list_fmap_compose.
  clear Hg Hlen Hwin Hb. clearbody n.
  destruct (Z_of_nat_complete n Hn) as [k ->].
  rewrite <- (windows_tile (x ds) B k) by lia.
  rewrite <- (windows_tile (y ds) (B * sps) k) by lia.
  split; f_equal; apply list_fmap_ext; intros _ i _; cbn;
    apply window_take; nia.
Qed.
End InitializationMore.

(** ** The normalization and the loss on binary32 values *)

Section Binary32More.

(** X22: on binary32 values [l2_normalize] makes no NaN and no infinity
    out of finite entries, whatever their magnitude: a row of zeros is
    divided by the square root of [epsilon] and returned as it is, and a
    row whose sum of squares overflows is divided by [+inf]. *)
Theorem l2_normalize_binary32_finite (x : list (list spec_float)) :
  F32.finite x ->
  F32.finite (F32.l2_normalize x) /\
  forall (i : nat) r, x !! i = Some r -> F32.zeros r ->
    F32.l2_normalize x !! i = Some r.
Proof.
  intros Hx. split.
  - unfold F32.finite, F32.l2_normalize. apply Forall_map.
    eapply Forall_impl; [exact Hx|]. apply l2_normalize_row_binary32_finite.
  - intros i r Hi Hz. unfold F32.l2_normalize.
    rewrite list_lookup_fmap, Hi. cbn. f_equal.
    apply l2_normalize_row_binary32_zeros, Hz.
Qed.

(** X23: on binary32 arrays of the same shape
    [negative_cosine_similarity] is symmetric in its two arguments bit for
    bit: the product of two binary32 values does not depend on their
    order. *)
Theorem ncs_binary32_symmetric (p z : list (list spec_float)) :
  same_shape p z ->
  F32.negative_cosine_similarity p z = F32.negative_cosine_similarity z p.
Proof.
  intros _. unfold F32.negative_cosine_similarity. do 2 f_equal.
  generalize (F32.l2_normalize p) (F32.l2_normalize z). clear p z.
  intros p; induction p as [|r p IH]; intros [|s z]; try reflexivity.
  cbn [zip_with]. rewrite IH. f_equal. f_equal.
  clear. revert s; induction r as [|a r IH]; intros [|b s]; try reflexivity.
  cbn [zip_with]. rewrite IH, mul_binary32_comm. reflexivity.
Qed.
End Binary32More.

(** ** The further properties on small inputs *)

Section SmallInputs.
Import Toy.
Local Open Scope R_scope.

Lemma assert_taps_iff_odd : _assert_taps 261 41 61 2 = Ok tt.
Proof.
  destruct (assert_taps_iff 261 41 61 2) as [_ Hs].
  apply Hs; [discriminate|]. repeat split; discriminate.
Defined.

Lemma make_base_module_ok_train :
  Z.odd 261 = true /\ Z.odd 41 = true /\ Z.odd 61 = true.
Proof.
  destruct (make_base_module_ok 3 261 41 61 (tt, tt) 0 "train"
              (Serial [ FDBP 3 261 41 tt tt; BatchPowerNorm "train";
                        MIMOFOEAf "FOEAf" 0 TrainAlways 61;
                        VmapConv1d "RConv" 61; MIMOAF TrainAlways ]))
    as [Hok _].
  destruct (Hok eq_refl) as (Hd & Hn & Hr & _). auto.
Defined.

Lemma ncs_negate_3_4 :
  negative_cosine_similarity (map (map Ropp) [[3; 4]]) [[4; 3]]
  = - negative_cosine_similarity [[3; 4]] [[4; 3]].
Proof.
  apply ncs_negate. repeat constructor.
Defined.

Lemma ncs_zero_rows_pair :
  negative_cosine_similarity [[0; 0]] [[1; 2]] = 0.
Proof.
  assert (Hs : same_shape [[0; 0]] [[1; 2]]) by (repeat constructor).
  assert (Hn : [[0; 0]] <> []) by discriminate.
  assert (Hz : Forall (Forall (fun a => a = 0)) [[0; 0]])
    by (repeat constructor).
  exact (proj2 (ncs_zero_rows [[0; 0]] [[1; 2]] Hs Hn Hz)).
Defined.

Lemma apply_transform4_never_filters_toy :
  (apply_transform4 [[Cplx 1 0]] (1 / 2, 30) 2 100 (1 / 2) draws).1
  = inr [[Cplx 1 0]].
Proof.
  destruct (apply_transform4_never_filters [[Cplx 1 0]] (1 / 2, 30) 2 100
              (1 / 2) draws) as (_ & Hskip & _).
  apply Hskip. cbn. lra.
Defined.

Lemma apply_transform2_rows_toy :
  (apply_transform2 [[Cplx 1 0]] (0, 30)%Z (1 / 2) draws).1
  = Ok [[Cplx 1 0]].
Proof.
  destruct (apply_transform2_rows [[Cplx 1 0]] (0, 30)%Z (1 / 2) draws)
    as (_ & Hskip & _).
  apply Hskip. cbn. lra.
Defined.

Lemma simclr_contrastive_loss_nonneg_unit :
  0 <= simclr_contrastive_loss [[1]] [[1]] (/ 10) (10 ^ 9).
Proof.
  apply simclr_contrastive_loss_nonneg.
  - lra.
  - lra.
  - repeat constructor.
  - discriminate.
Defined.

Lemma loss_fn_without_augmentation_toy :
  loss_fn layer ∅ 0%Z [[Cplx 3 4]] [1%Z] ∅ tt ∅ draws
  = ((negative_cosine_similarity [[c_abs (Cplx 3 4)]] [[c_abs (Cplx 3 4)]],
      1%Z),
     {| tape := tape draws; pos := 2 |}).
Proof.
  apply (loss_fn_without_augmentation layer ∅ 0%Z [[Cplx 3 4]] [1%Z] ∅ tt
           ∅ draws).
  - cbn. lra.
  - cbn. lra.
Defined.

Lemma train_state_carried_toy :
  l_module_state (train_body model optimizer first.2 batch1).2
  = (apply layer
       {| v_params := dict_merge (l_params first.2) (l_sparams first.2);
          v_aux_inputs := dict_replace (l_aux first.2) "truth" batch1.2;
          v_const := l_const first.2;
          v_state := l_module_state first.2 |} (mkSignal batch1.1)).2.
Proof.
  assert (Hg : get_train_batch data 1 (overlaps model) 2
               = Ok (2%Z, [batch0; batch1])) by reflexivity.
  assert (Ht : train_trace model data 1 None optimizer draws
               = Ok (train_on model None optimizer draws
                       (2%Z, [batch0; batch1])))
    by reflexivity.
  assert (H1 : train_on model None optimizer draws (2%Z, [batch0; batch1])
               !! 1%nat = Some (train_body model optimizer first.2 batch1)).
  { unfold first. cbn [train_on initvar model].
    change (opt_init optimizer {[ ["w"%string] := 5%Z ]}) with tt.
    fold locals. fold model.
    cbn [train_loop Z.leb Z.compare Z.add Pos.compare Pos.compare_cont].
    destruct (train_body model optimizer locals batch0) as [loss l].
    cbn [snd].
    destruct (train_body model optimizer l batch1) as [loss1 l1].
    reflexivity. }
  destruct (train_state_carried model data 1 None optimizer draws _ _ _
              0%nat _ Hg Ht H1) as (loss & l & y & x & H0 & Hb & _ & _ & _ & Hs).
  assert (Hl : l = first.2).
  { unfold first in *. cbn [train_on initvar model] in H0.
    change (opt_init optimizer {[ ["w"%string] := 5%Z ]}) with tt in H0.
    fold locals in H0. fold model in H0.
    cbn [train_loop Z.leb Z.compare] in H0.
    destruct (train_body model optimizer locals batch0) as [loss0 l0].
    cbn in H0 |- *. congruence. }
  injection Hb as <- <-. subst l. exact Hs.
Defined.

Lemma l2_normalize_binary32_finite_rows :
  F32.finite [[S754_zero true; S754_zero false];
              [S754_finite false 8388608 97; F32.one]] /\
  F32.l2_normalize [[S754_zero true; S754_zero false];
                    [S754_finite false 8388608 97; F32.one]]
  !! 0%nat = Some [S754_zero true; S754_zero false] /\
  F32.finite
    (F32.l2_normalize [[S754_zero true; S754_zero false];
                       [S754_finite false 8388608 97; F32.one]]).
Proof.
  assert (Hx : F32.finite [[S754_zero true; S754_zero false];
                           [S754_finite false 8388608 97; F32.one]])
    by (repeat constructor).
  destruct (l2_normalize_binary32_finite _ Hx) as [Hf Hz].
  split; [exact Hx|]. split; [|exact Hf].
  apply (Hz 0%nat); [reflexivity|repeat constructor].
Defined.

Lemma ncs_binary32_symmetric_rows :
  same_shape [[F32.one; F32.four]] [[F32.three; F32.one]] /\
  F32.negative_cosine_similarity [[F32.one; F32.four]]
    [[F32.three; F32.one]]
  = F32.negative_cosine_similarity [[F32.three; F32.one]]
      [[F32.one; F32.four]].
Proof.
  assert (Hs : same_shape [[F32.one; F32.four]] [[F32.three; F32.one]])
    by (repeat constructor).
  split; [exact Hs|]. apply (ncs_binary32_symmetric _ _ Hs).
Defined.

Lemma model_init_partition_toy :
  dict_merge ({[ ["w"%string] := 5%Z ]} : gmap (list string) Z)
    {[ ["b"%string] := 7%Z ]}
  = {[ ["w"%string] := 5%Z; ["b"%string] := 7%Z ]}.
Proof.
  assert (Hi : model_init data conf [["b"%string]] 4 2 "Model" = Ok model)
    by reflexivity.
  exact (proj1 (model_init_partition data conf [["b"%string]] 4 2 "Model"
                  model Hi)).
Defined.

Lemma test_after_model_init_toy :
  (test model None data (0, -1)%Z metric_fn).1 = 1%Z.
Proof.
  assert (Hi : model_init data conf [["b"%string]] 4 2 "Model" = Ok model)
    by reflexivity.
  rewrite (test_after_model_init data conf [["b"%string]] 4 2 "Model" model
             data (0, -1)%Z metric_fn Hi).
  reflexivity.
Defined.

Lemma model_init_reads_prefix_toy :
  model_init {| y := replicate 9 [Cplx 1 0]; x := []; w0 := 0 |} conf
    [["b"%string]] 4 2 "Model"
  = model_init data conf [["b"%string]] 4 2 "Model".
Proof.
  apply model_init_reads_prefix; [lia|reflexivity|reflexivity].
Defined.

Lemma get_train_batch_tiles_toy :
  exists batch_gen,
    get_train_batch data 1 2 2 = Ok (2%Z, batch_gen) /\
    concat ((fun b => take 1 b.2) <$> batch_gen) = [1; 2]%Z.
Proof.
  destruct (get_train_batch_tiles data 1 2 2) as (g & Hg & Hx & _).
  - lia.
  - unfold data, PySeq.len. cbn. lia.
  - lia.
  - reflexivity.
  - exists g. split; [exact Hg|exact Hx].
Defined.
End SmallInputs.
